(** * WebRTC signaling server: rooms, users and event relay

    A shallow embedding of [src/server.js]: the two registries [rooms] and
    [users], the socket.io handlers registered on every connection
    ([join-room], [offer], [answer], [ice-candidate], [message],
    [disconnect]) and the status counters of the health-check endpoint. *)

From stdpp Require Import gmap strings list fin_maps.
From Stdlib Require Import ZArith.

#[local] Set Warnings "-clear-no-such-hyp,-register-all".

(** ** JavaScript values *)

(** The values that reach the server inside an event payload.  The server
    stores and relays them, uses them as [Map] keys, where JavaScript
    compares objects by reference, hands them to the transport, which
    looks into an array, and writes them into its log lines, which
    converts them to strings.  An object is therefore represented by its
    address, together with what these operations read: an array carries
    its elements, and an object with an own property [toString] (never
    callable when it comes from JSON) is told apart from one without.  A
    number, with which the server never computes, is represented by an
    integer code of its SameValueZero class.  Leibniz equality on [value]
    is then the comparison made by [Map] and [Set] (and by [!==] against
    a string). *)
Inductive value :=
  | VUndefined
  | VNull
  | VBool (b : bool)
  | VNum (n : Z)
  | VStr (s : string)
  | VRef (addr : positive)
  | VOwnToString (addr : positive)
  | VArr (addr : positive) (elems : list value).

Fixpoint value_encode (v : value)
  : gen_tree (bool + bool + Z + string + (bool * positive)) :=
  match v with
  | VUndefined => GenLeaf (inl (inl (inl (inl false))))
  | VNull => GenLeaf (inl (inl (inl (inl true))))
  | VBool b => GenLeaf (inl (inl (inl (inr b))))
  | VNum n => GenLeaf (inl (inl (inr n)))
  | VStr s => GenLeaf (inl (inr s))
  | VRef a => GenLeaf (inr (false, a))
  | VOwnToString a => GenLeaf (inr (true, a))
  | VArr a l => GenNode (Pos.to_nat a) (value_encode <$> l)
  end.

Fixpoint value_decode
  (t : gen_tree (bool + bool + Z + string + (bool * positive))) : value :=
  match t with
  | GenLeaf (inl (inl (inl (inl false)))) => VUndefined
  | GenLeaf (inl (inl (inl (inl true)))) => VNull
  | GenLeaf (inl (inl (inl (inr b)))) => VBool b
  | GenLeaf (inl (inl (inr n))) => VNum n
  | GenLeaf (inl (inr s)) => VStr s
  | GenLeaf (inr (false, a)) => VRef a
  | GenLeaf (inr (true, a)) => VOwnToString a
  | GenNode n l => VArr (Pos.of_nat n) (value_decode <$> l)
  end.

Lemma value_decode_encode v : value_decode (value_encode v) = v.
Proof.
  revert v. fix IH 1. intros [| |b|n|s|a|a|a l]; simpl; try done.
  rewrite Pos2Nat.id. f_equal.
  induction l as [|v l IHl]; [done|]. cbn. f_equal; [apply IH|apply IHl].
Qed.

#[global] Instance value_eq_dec : EqDecision value.
Proof.
  intros v1 v2.
  refine (cast_if (decide (value_encode v1 = value_encode v2))).
  - rewrite <- (value_decode_encode v1), <- (value_decode_encode v2). congruence.
  - congruence.
Defined.

#[global] Instance value_countable : Countable value.
Proof.
  exact (inj_countable' value_encode value_decode value_decode_encode).
Defined.

(** Whether the template literal [`${v}`] of a log line evaluates: the
    conversion to a string raises a [TypeError] for an object with an own
    [toString], and for an array that holds one, since [join] converts
    every element. *)
Fixpoint printable (v : value) : bool :=
  match v with
  | VOwnToString _ => false
  | VArr _ l => forallb printable l
  | _ => true
  end.

(** The rooms that the transport reads in a room argument:
    [Array.isArray(x) ? x : [x]]. *)
Definition room_list (room : value) : list value :=
  match room with
  | VArr _ l => l
  | _ => [room]
  end.

(** The argument [data] of a handler: whatever the client put in the
    event.  Reading a property of [undefined] or [null] raises a
    [TypeError]; a boolean, number or string has none of the properties
    the handlers read; an object has its own fields. *)
Inductive payload :=
  | DUndefined
  | DNull
  | DScalar
  | DObject (fields : gmap string value).

(** [data.name], or the [name] component of [const { ... } = data]:
    [None] stands for the [TypeError], an absent field reads as
    [undefined]. *)
Definition prop (data : payload) (name : string) : option value :=
  match data with
  | DUndefined | DNull => None
  | DScalar => Some VUndefined
  | DObject fields => Some (default VUndefined (fields !! name))
  end.

Definition nullish (data : payload) : bool :=
  match data with
  | DUndefined | DNull => true
  | _ => false
  end.

(** ** Insertion-ordered sets of socket ids

    A JavaScript [Set] iterates in insertion order, and [Array.from]
    exposes that order in the [users-in-room] list. *)
Definition set_add (x : string) (s : list string) : list string :=
  if decide (x ∈ s) then s else s ++ [x].

Definition set_delete (x : string) (s : list string) : list string :=
  filter (λ y, y ≠ x) s.

(** ** Server state *)

(** An entry of the [users] map: [{ username, roomId }]. *)
Record user := User { username : value; roomId : value }.

#[global] Instance user_eq_dec : EqDecision user.
Proof. solve_decision. Defined.

(** [rooms] and [users] are the two module-level maps of the source.
    [sockets] is the transport's side of the state: the live sockets,
    each with the set [socket.rooms] of transport rooms it has joined. *)
Record state := State {
  rooms : gmap value (list string);
  users : gmap string user;
  sockets : gmap string (gset value)
}.

Definition init : state := State ∅ ∅ ∅.

(** ** Outbound events *)

Inductive outbound :=
  | UsersInRoom (others : list (string * value))
  | UserJoined (id : string) (name : value)
  | OfferEv (fromId : string) (fromUsername : value) (body : value)
  | AnswerEv (fromId : string) (fromUsername : value) (body : value)
  | IceCandidateEv (fromId : string) (candidate : value)
  | MessageEv (fromId : string) (name : value) (text : value) (timestamp : Z)
  | UserLeft (id : string) (name : value).

(** One call of [emit]: the sockets it is written to and what is sent. *)
Record emission := Emission { recipients : gset string; sent : outbound }.

(** ** Transport primitives

    The transport (socket.io) is an external collaborator of
    [server.js].  Line 44 of the source shows that [socket.rooms] holds
    the socket's own id: every socket sits in the room named by its id,
    which is how [socket.to(targetId)] reaches a single connection. *)

(** Whether a socket with the transport rooms [rs] is addressed by a
    broadcast to [targets]: it sits in one of them, or no room is named
    at all, which addresses every socket. *)
Definition addressed (targets : list value) (rs : gset value) : Prop :=
  targets = [] ∨ Exists (λ r, r ∈ rs) targets.

#[global] Instance addressed_dec targets rs : Decision (addressed targets rs).
Proof. unfold addressed. apply _. Defined.

(** Modelled from the spec: [socket.to(room).emit(...)] is the
    transport's room-scoped broadcast, which the spec describes as a send
    to all identifiers currently in a room, excluding the sender.  An
    array names each of its elements. *)
Definition to_room (st : state) (id : string) (room : value) : gset string :=
  dom (filter (λ kv, kv.1 ≠ id ∧ addressed (room_list room) kv.2) (sockets st)).

(** Lines 43-47: leave every transport room except the own one. *)
Definition leave_previous (id : string) (sk : gmap string (gset value))
  : gmap string (gset value) :=
  alter (filter (λ room, room = VStr id)) id sk.

(** Line 50: [socket.join(roomId)]; an array joins each of its
    elements. *)
Definition socket_join (id : string) (room : value)
  (sk : gmap string (gset value)) : gmap string (gset value) :=
  alter (λ rs, rs ∪ list_to_set (room_list room)) id sk.

(** ** Handlers *)

(** How a handler ends: it returns, or it raises a [TypeError]; either
    way with the state and the emissions made so far. *)
Inductive completion :=
  | Returns (st : state) (out : list emission)
  | Throws (st : state) (out : list emission).

(** A [console.log] whose template literal interpolates [vs], as the last
    statement of a handler that has reached [st] and emitted [out]. *)
Definition log_and_return (vs : list value) (st : state) (out : list emission)
  : completion :=
  if forallb printable vs then Returns st out else Throws st out.

(** [users.get(id)?.username] *)
Definition username_of (u : option user) : value :=
  match u with
  | Some u => username u
  | None => VUndefined
  end.

(** Lines 39-81; the log line 80 of [username] and [roomId] is the last
    statement. *)
Definition join_room (st : state) (id : string) (data : payload) : completion :=
  match prop data "roomId", prop data "username" with
  | Some room, Some name =>
      let sk := socket_join id room (leave_previous id (sockets st)) in
      let users' := <[id := User name room]> (users st) in
      let rooms1 :=
        match rooms st !! room with
        | Some _ => rooms st
        | None => <[room := []]> (rooms st)
        end in
      let rooms2 := alter (set_add id) room rooms1 in
      let otherUsers :=
        (λ x, (x, username_of (users' !! x))) <$>
          filter (λ x, x ≠ id) (default [] (rooms2 !! room)) in
      let st' := State rooms2 users' sk in
      log_and_return [name; room] st'
        [ Emission {[id]} (UsersInRoom otherUsers);
          Emission (to_room st' id room) (UserJoined id name) ]
  | _, _ => Throws st []
  end.

(** Lines 84-95; the log line 94 of [targetId] follows the emit. *)
Definition offer (st : state) (id : string) (data : payload) : completion :=
  match prop data "targetId", prop data "offer" with
  | Some targetId, Some body =>
      log_and_return [targetId] st
        [ Emission (to_room st id targetId)
                   (OfferEv id (username_of (users st !! id)) body) ]
  | _, _ => Throws st []
  end.

(** Lines 98-109; the log line 108 of [targetId] follows the emit. *)
Definition answer (st : state) (id : string) (data : payload) : completion :=
  match prop data "targetId", prop data "answer" with
  | Some targetId, Some body =>
      log_and_return [targetId] st
        [ Emission (to_room st id targetId)
                   (AnswerEv id (username_of (users st !! id)) body) ]
  | _, _ => Throws st []
  end.

(** Lines 112-119. *)
Definition ice_candidate (st : state) (id : string) (data : payload) : completion :=
  match prop data "targetId", prop data "candidate" with
  | Some targetId, Some candidate =>
      Returns st [ Emission (to_room st id targetId) (IceCandidateEv id candidate) ]
  | _, _ => Throws st []
  end.

(** Lines 122-135; [now] is the reading of [Date.now()]. *)
Definition message (st : state) (id : string) (data : payload) (now : Z)
  : completion :=
  match users st !! id with
  | None => Returns st []
  | Some u =>
      match prop data "message" with
      | Some text =>
          Returns st [ Emission (to_room st id (roomId u))
                                (MessageEv id (username u) text now) ]
      | None => Throws st []
      end
  end.

(** Lines 145-152: the [rooms] part of the disconnect handler. *)
Definition rooms_remove (id : string) (room : value)
  (rs : gmap value (list string)) : gmap value (list string) :=
  match rs !! room with
  | Some members =>
      let members' := set_delete id members in
      if decide (length members' = 0) then delete room rs
      else <[room := members']> rs
  | None => rs
  end.

(** Lines 138-165; the log line 160 stands before [users.delete]. *)
Definition disconnect (st : state) (id : string) : completion :=
  match users st !! id with
  | Some u =>
      let st1 := State (rooms_remove id (roomId u) (rooms st)) (users st) (sockets st) in
      let out := [ Emission (to_room st1 id (roomId u)) (UserLeft id (username u)) ] in
      if forallb printable [username u; roomId u]
      then Returns (State (rooms st1) (delete id (users st1)) (sockets st1)) out
      else Throws st1 out
  | None => Returns (State (rooms st) (delete id (users st)) (sockets st)) []
  end.

(** Lines 26-32: [(activeRooms, activeUsers)] of the health check. *)
Definition status (st : state) : nat * nat :=
  (size (rooms st), size (users st)).

(** ** Dispatch *)

Inductive event :=
  | Connection
  | JoinRoom (data : payload)
  | Offer (data : payload)
  | Answer (data : payload)
  | IceCandidate (data : payload)
  | Message (data : payload) (now : Z)
  | Disconnect.

Definition live (st : state) (id : string) : Prop := is_Some (sockets st !! id).

#[global] Instance live_dec st id : Decision (live st id).
Proof. unfold live. apply _. Defined.

(** Lines 35-166 seen from the transport: a new connection enters its own
    room and gets its handlers; an event of a live socket runs the
    handler registered for it; on close the socket has left all its rooms
    when the [disconnect] handler runs.  A socket that is not live has no
    handlers to run. *)
Definition dispatch (st : state) (id : string) (ev : event) : completion :=
  match sockets st !! id with
  | None =>
      match ev with
      | Connection =>
          Returns (State (rooms st) (users st) (<[id := {[VStr id]}]> (sockets st))) []
      | _ => Returns st []
      end
  | Some _ =>
      match ev with
      | Connection => Returns st []
      | JoinRoom data => join_room st id data
      | Offer data => offer st id data
      | Answer data => answer st id data
      | IceCandidate data => ice_candidate st id data
      | Message data now => message st id data now
      | Disconnect =>
          disconnect (State (rooms st) (users st) (delete id (sockets st))) id
      end
  end.

(** The states the server can be in: those reached from the empty
    registries by events whose handler returned (an uncaught exception
    ends the process). *)
Inductive reachable : state → Prop :=
  | reachable_init : reachable init
  | reachable_step st id ev st' out :
      reachable st → dispatch st id ev = Returns st' out → reachable st'.

(** Running a trace of events; [None] when a handler raised. *)
Fixpoint run (st : state) (tr : list (string * event)) : option state :=
  match tr with
  | [] => Some st
  | (id, ev) :: tr' =>
      match dispatch st id ev with
      | Returns st' _ => run st' tr'
      | Throws _ _ => None
      end
  end.

Definition payload_of (ev : event) : option payload :=
  match ev with
  | JoinRoom d | Offer d | Answer d | IceCandidate d | Message d _ => Some d
  | Connection | Disconnect => None
  end.

(** ** The invariant of reachable states *)

(** The transport rooms a socket is expected to sit in: its own, and the
    rooms that the [roomId] of its [users] entry names. *)
Definition rooms_of (st : state) (x : string) : gset value :=
  {[VStr x]} ∪ match users st !! x with
               | Some u => list_to_set (room_list (roomId u))
               | None => ∅
               end.

Record consistent (st : state) : Prop := Consistent {
  joined_listed : ∀ x u, users st !! x = Some u →
    ∃ ms, rooms st !! roomId u = Some ms ∧ x ∈ ms;
  rooms_nonempty : ∀ r ms, rooms st !! r = Some ms → ms ≠ [];
  users_live : ∀ x u, users st !! x = Some u → live st x;
  socket_rooms : ∀ x rs, sockets st !! x = Some rs → rs = rooms_of st x;
  entries_logged : ∀ x u, users st !! x = Some u →
    forallb printable [username u; roomId u] = true
}.

(** A payload field, [undefined] when absent. *)
Definition field (data : payload) (name : string) : value :=
  default VUndefined (prop data name).

(** The payload fields that the log line of the event's handler
    interpolates (lines 80, 94 and 108). *)
Definition logged (ev : event) : list value :=
  match ev with
  | JoinRoom d => [field d "username"; field d "roomId"]
  | Offer d | Answer d => [field d "targetId"]
  | _ => []
  end.

(** ** Example traces and states *)

Definition join_payload (room name : string) : payload :=
  DObject {[ "roomId" := VStr room; "username" := VStr name ]}.

Definition two_in_r1 : list (string * event) :=
  [ ("A", Connection); ("B", Connection);
    ("A", JoinRoom (join_payload "r1" "Alice"));
    ("B", JoinRoom (join_payload "r1" "Bob")) ].

(** The state after [two_in_r1]. *)
Definition st_two_in_r1 : state :=
  State {[ VStr "r1" := ["A"; "B"] ]}
        {[ "A" := User (VStr "Alice") (VStr "r1");
           "B" := User (VStr "Bob") (VStr "r1") ]}
        {[ "A" := {[ VStr "A"; VStr "r1" ]}; "B" := {[ VStr "B"; VStr "r1" ]} ]}.

(** A is connected and has not joined; B is alone in "r1". *)
Definition st_b_in_r1 : state :=
  State {[ VStr "r1" := ["B"] ]}
        {[ "B" := User (VStr "Bob") (VStr "r1") ]}
        {[ "A" := {[ VStr "A" ]}; "B" := {[ VStr "B"; VStr "r1" ]} ]}.

(** [x] is in the member set that [rooms] holds for [r]:
    [rooms.get(r)?.has(x)]. *)
Definition member (st : state) (r : value) (x : string) : Prop :=
  ∃ ms, rooms st !! r = Some ms ∧ x ∈ ms.

(** A join that names the room by a number and gives no [username]. *)
Definition numbered_room (k : nat) : payload :=
  DObject {[ "roomId" := VNum (Z.of_nat k) ]}.

(** * Properties *)

Lemma run_reachable tr st st' :
  reachable st → run st tr = Some st' → reachable st'.
Proof.
  revert st. induction tr as [|[id ev] tr IH]; intros st Hst Hrun; simpl in Hrun.
  - by simplify_eq.
  - destruct (dispatch st id ev) as [st1 out|] eqn:Hd; [|done].
    eapply IH; [|done]. by eapply reachable_step.
Qed.

(** ** Membership lemmas *)

Lemma elem_of_set_add x y s : x ∈ set_add y s ↔ x = y ∨ x ∈ s.
Proof.
  unfold set_add. case_decide; [|rewrite elem_of_app, list_elem_of_singleton];
    naive_solver.
Qed.

Lemma elem_of_set_delete x y s : x ∈ set_delete y s ↔ x ≠ y ∧ x ∈ s.
Proof. unfold set_delete. by rewrite list_elem_of_filter. Qed.

Lemma set_add_nonempty x s : set_add x s ≠ [].
Proof.
  intros H. assert (x ∈ set_add x s) as Hx by (apply elem_of_set_add; auto).
  rewrite H in Hx. by apply elem_of_nil in Hx.
Qed.

Lemma elem_of_to_room st id room x :
  x ∈ to_room st id room ↔
  x ≠ id ∧ ∃ rs, sockets st !! x = Some rs ∧ addressed (room_list room) rs.
Proof.
  unfold to_room. rewrite elem_of_dom. unfold is_Some.
  setoid_rewrite map_lookup_filter_Some. simpl. split.
  - intros (rs & Hrs & Hx & Ha). eauto.
  - intros (Hx & rs & Hrs & Ha). eauto.
Qed.

Lemma addressed_singleton r rs : addressed [r] rs ↔ r ∈ rs.
Proof.
  unfold addressed. rewrite Exists_cons, Exists_nil. naive_solver.
Qed.

Lemma addressed_elem targets rs :
  addressed targets rs ↔ targets = [] ∨ ∃ r, r ∈ targets ∧ r ∈ rs.
Proof. unfold addressed. by rewrite Exists_exists. Qed.

(** A socket that sits in all the rooms of a list is addressed by it. *)
Lemma addressed_subseteq targets rs :
  list_to_set targets ⊆ rs → addressed targets rs.
Proof.
  intros Hsub. destruct targets as [|r l]; [by left|]. right.
  apply Exists_cons_hd. apply Hsub. set_solver.
Qed.

Lemma sender_not_in_to_room st id room : id ∉ to_room st id room.
Proof. rewrite elem_of_to_room. naive_solver. Qed.

(** ** Preservation of the invariant *)

Lemma log_and_return_inv vs st out c :
  log_and_return vs st out = c →
  (forallb printable vs = true ∧ c = Returns st out) ∨
  (forallb printable vs = false ∧ c = Throws st out).
Proof. unfold log_and_return. destruct (forallb printable vs); naive_solver. Qed.

Lemma log_and_return_Returns vs st out st' out' :
  log_and_return vs st out = Returns st' out' →
  forallb printable vs = true ∧ st = st' ∧ out = out'.
Proof.
  unfold log_and_return. destruct (forallb printable vs); [|done].
  by intros [= <- <-].
Qed.

Lemma log_and_return_true vs st out :
  forallb printable vs = true → log_and_return vs st out = Returns st out.
Proof. unfold log_and_return. by intros ->. Qed.

Lemma consistent_init : consistent init.
Proof. split; unfold init; simpl; intros *; by rewrite lookup_empty. Qed.

Lemma join_room_rooms_lookup st id room r :
  alter (set_add id) room
    (match rooms st !! room with
     | Some _ => rooms st
     | None => <[room := []]> (rooms st)
     end) !! r =
  if decide (room = r) then Some (set_add id (default [] (rooms st !! room)))
  else rooms st !! r.
Proof.
  rewrite lookup_alter. case_decide as Hr.
  - subst r. destruct (rooms st !! room) as [ms|] eqn:Hm; simpl.
    + by rewrite Hm.
    + by rewrite lookup_insert_eq.
  - destruct (rooms st !! room); [done|]. by rewrite lookup_insert_ne.
Qed.

Lemma join_room_sockets_lookup st id room x :
  socket_join id room (leave_previous id (sockets st)) !! x =
  if decide (id = x)
  then (λ rs, filter (λ r, r = VStr id) rs ∪ list_to_set (room_list room))
         <$> sockets st !! id
  else sockets st !! x.
Proof.
  unfold socket_join, leave_previous. case_decide as Hx.
  - subst x. rewrite !lookup_alter_eq. by destruct (sockets st !! id).
  - by rewrite !lookup_alter_ne.
Qed.

Lemma join_room_consistent st id data st' out :
  consistent st → live st id →
  join_room st id data = Returns st' out → consistent st'.
Proof.
  intros [H1 H2 H3 H4 H5] [rs0 Hrs0]. unfold join_room.
  destruct (prop data "roomId") as [room|]; [|done].
  destruct (prop data "username") as [name|]; [|done].
  intros [[Hlog [= -> ->]]|[_ [=]]]%log_and_return_inv. split; simpl.
  - intros x u. rewrite lookup_insert. case_decide as Hx.
    + intros [= <-]. simpl. rewrite join_room_rooms_lookup, decide_True by done.
      eexists; split; [done|]. apply elem_of_set_add; auto.
    + intros Hu. destruct (H1 _ _ Hu) as (ms & Hms & Hin).
      rewrite join_room_rooms_lookup. case_decide as Hr.
      * eexists; split; [done|]. rewrite Hr, Hms. apply elem_of_set_add; auto.
      * eauto.
  - intros r ms. rewrite join_room_rooms_lookup. case_decide.
    + intros [= <-]. apply set_add_nonempty.
    + apply H2.
  - intros x u. unfold live. simpl. rewrite join_room_sockets_lookup, lookup_insert.
    case_decide as Hx.
    + intros _. by rewrite Hrs0.
    + apply H3.
  - intros x rs. rewrite join_room_sockets_lookup. unfold rooms_of. simpl.
    rewrite lookup_insert. case_decide as Hx.
    + subst x. rewrite Hrs0. intros [= <-]. simpl.
      rewrite (H4 _ _ Hrs0). unfold rooms_of.
      apply set_eq. intros r.
      rewrite !elem_of_union, elem_of_filter, !elem_of_union, !elem_of_singleton.
      naive_solver.
    + intros Hrs. apply (H4 _ _ Hrs).
  - intros x u. rewrite lookup_insert. case_decide as Hx; [|apply H5].
    by intros [= <-].
Qed.

Lemma rooms_remove_lookup id room rs r :
  rooms_remove id room rs !! r =
  if decide (room = r)
  then ms ← rs !! room;
       if decide (set_delete id ms = []) then None else Some (set_delete id ms)
  else rs !! r.
Proof.
  unfold rooms_remove. destruct (rs !! room) as [ms|] eqn:Hm; simpl.
  - destruct (set_delete id ms) as [|y l] eqn:Hd; simpl.
    + rewrite lookup_delete. by repeat case_decide.
    + rewrite lookup_insert. by repeat case_decide.
  - case_decide; by simplify_eq.
Qed.

Lemma disconnect_consistent st id st' out :
  consistent st →
  disconnect (State (rooms st) (users st) (delete id (sockets st))) id
    = Returns st' out →
  consistent st'.
Proof.
  intros [H1 H2 H3 H4 H5]. unfold disconnect. simpl.
  assert (∀ x u, delete id (users st) !! x = Some u →
                 x ≠ id ∧ users st !! x = Some u) as Hdel.
  { intros x u. rewrite lookup_delete. case_decide; naive_solver. }
  destruct (users st !! id) as [uid|] eqn:Hid;
    [case_match; [|done]|];
    intros [= <- _]; split; simpl.
  - intros x u [Hx Hu]%Hdel. destruct (H1 _ _ Hu) as (ms & Hms & Hin).
    rewrite rooms_remove_lookup. case_decide as Hr; [|eauto].
    rewrite Hr, Hms. simpl.
    assert (x ∈ set_delete id ms) as Hin' by by apply elem_of_set_delete.
    case_decide as He; [rewrite He in Hin'; by apply elem_of_nil in Hin'|].
    eauto.
  - intros r ms. rewrite rooms_remove_lookup. case_decide; [|apply H2].
    destruct (rooms st !! roomId uid); simpl; [|done].
    case_decide; naive_solver.
  - intros x u [Hx Hu]%Hdel. unfold live. simpl.
    rewrite lookup_delete_ne by done. by eapply H3.
  - intros x rs. rewrite lookup_delete. case_decide as Hx; [done|].
    intros Hrs. rewrite (H4 _ _ Hrs). unfold rooms_of. simpl.
    by rewrite lookup_delete_ne.
  - intros x u [Hx Hu]%Hdel. eauto.
  - intros x u [Hx Hu]%Hdel. eauto.
  - apply H2.
  - intros x u [Hx Hu]%Hdel. unfold live. simpl.
    rewrite lookup_delete_ne by done. by eapply H3.
  - intros x rs. rewrite lookup_delete. case_decide as Hx; [done|].
    intros Hrs. rewrite (H4 _ _ Hrs). unfold rooms_of. simpl.
    by rewrite lookup_delete_ne.
  - intros x u [Hx Hu]%Hdel. eauto.
Qed.

Lemma connection_consistent st id :
  consistent st → sockets st !! id = None →
  consistent (State (rooms st) (users st) (<[id := {[VStr id]}]> (sockets st))).
Proof.
  intros [H1 H2 H3 H4 H5] Hid. split; simpl; [done|done|..|done].
  - intros x u Hu. unfold live. simpl. rewrite lookup_insert.
    case_decide; [done|]. by eapply H3.
  - intros x rs. rewrite lookup_insert. unfold rooms_of. simpl.
    case_decide as Hx; [|apply H4]. subst x. intros [= <-].
    destruct (users st !! id) as [u|] eqn:Hu; [|set_solver].
    destruct (H3 _ _ Hu) as [? ?]. congruence.
Qed.

(** Every handler that returns keeps the invariant. *)
Lemma dispatch_consistent st id ev st' out :
  consistent st → dispatch st id ev = Returns st' out → consistent st'.
Proof.
  intros Hc. unfold dispatch.
  destruct (sockets st !! id) as [rs|] eqn:Hs.
  - destruct ev as [|d|d|d|d|d now|].
    + by intros [= <- _].
    + apply join_room_consistent; [done|]. by exists rs.
    + unfold offer, log_and_return. by repeat case_match; intros [= <- _].
    + unfold answer, log_and_return. by repeat case_match; intros [= <- _].
    + unfold ice_candidate. by repeat case_match; intros [= <- _].
    + unfold message. by repeat case_match; intros [= <- _].
    + by apply disconnect_consistent.
  - destruct ev; intros [= <- _]; try done. by apply connection_consistent.
Qed.

Lemma reachable_consistent st : reachable st → consistent st.
Proof.
  induction 1 as [|st id ev st' out _ IH Hd].
  - apply consistent_init.
  - by eapply dispatch_consistent.
Qed.

(** The transport rooms of a live socket, in terms of the registries. *)
Lemma elem_of_socket_rooms st x rs r :
  consistent st → sockets st !! x = Some rs →
  r ∈ rs ↔ r = VStr x ∨ ∃ u, users st !! x = Some u ∧ r ∈ room_list (roomId u).
Proof.
  intros Hc Hrs. rewrite (socket_rooms _ Hc _ _ Hrs). unfold rooms_of.
  rewrite elem_of_union, elem_of_singleton.
  destruct (users st !! x) as [u|].
  - rewrite elem_of_list_to_set. naive_solver.
  - rewrite elem_of_empty. naive_solver.
Qed.

(** Who receives a room broadcast, in terms of the two registries. *)
Lemma elem_of_to_room_consistent st id room x :
  consistent st →
  x ∈ to_room st id room ↔
  x ≠ id ∧ live st x ∧
  (room_list room = [] ∨
   ∃ r, r ∈ room_list room ∧
        (r = VStr x ∨ ∃ u, users st !! x = Some u ∧ r ∈ room_list (roomId u))).
Proof.
  intros Hc. rewrite elem_of_to_room. unfold live. split.
  - intros (Hx & rs & Hrs & Ha). split; [done|]. split; [by exists rs|].
    apply addressed_elem in Ha as [Ha|(r & Hr & Hin)]; [by left|]. right.
    exists r. split; [done|]. by apply (elem_of_socket_rooms st x rs).
  - intros (Hx & [rs Hrs] & Hroom). split; [done|]. exists rs. split; [done|].
    apply addressed_elem. destruct Hroom as [?|(r & Hr & Hin)]; [by left|].
    right. exists r. split; [done|]. by apply (elem_of_socket_rooms st x rs).
Qed.

(** A connection whose entry records [room] hears the broadcasts to it. *)
Lemma joined_in_to_room st id x u :
  consistent st → x ≠ id → users st !! x = Some u →
  x ∈ to_room st id (roomId u).
Proof.
  intros Hc Hx Hu. apply elem_of_to_room. split; [done|].
  destruct (users_live _ Hc _ _ Hu) as [rs Hrs]. exists rs. split; [done|].
  apply addressed_subseteq. rewrite (socket_rooms _ Hc _ _ Hrs).
  unfold rooms_of. rewrite Hu. set_solver.
Qed.

Lemma prop_field data name :
  nullish data = false → prop data name = Some (field data name).
Proof. unfold field. by destruct data. Qed.

Lemma run_two_in_r1 : run init two_in_r1 = Some st_two_in_r1.
Proof. compute_done. Qed.

Lemma reachable_two_in_r1 : reachable st_two_in_r1.
Proof. eapply run_reachable; [apply reachable_init|apply run_two_in_r1]. Qed.

Lemma reachable_b_in_r1 : reachable st_b_in_r1.
Proof.
  apply (run_reachable [ ("A", Connection); ("B", Connection);
                         ("B", JoinRoom (join_payload "r1" "Bob")) ] init);
    [apply reachable_init|compute_done].
Qed.

(** ** Room membership and the connection directory *)

(** A join touches the member set of the room joined and no other: the
    room recorded by the joiner's previous entry keeps the joiner. *)
Lemma join_room_other_rooms st id data st' out r :
  dispatch st id (JoinRoom data) = Returns st' out →
  r ≠ field data "roomId" → rooms st' !! r = rooms st !! r.
Proof.
  unfold dispatch, join_room, field.
  destruct (sockets st !! id); [|by intros [= <- _]].
  destruct (prop data "roomId") as [room|]; [|done].
  destruct (prop data "username") as [name|]; [|done].
  intros (_ & <- & _)%log_and_return_Returns Hr. simpl in *.
  by rewrite join_room_rooms_lookup, decide_False.
Qed.

(** C1: the claim asks that a connection sits in the member set of exactly
    the room its [users] entry records.  The source breaks it: when A
    joins "r1" and then "r2", the join handler leaves the transport room
    "r1" but never deletes A from [rooms.get("r1")], so A is listed under
    both rooms while its entry records "r2". *)
Theorem join_room_keeps_old_membership :
  ∃ st,
    run init [ ("A", Connection);
               ("A", JoinRoom (join_payload "r1" "Alice"));
               ("A", JoinRoom (join_payload "r2" "Alice")) ] = Some st ∧
    users st !! "A" = Some (User (VStr "Alice") (VStr "r2")) ∧
    rooms st !! VStr "r1" = Some ["A"] ∧
    rooms st !! VStr "r2" = Some ["A"].
Proof.
  exists (State {[ VStr "r1" := ["A"]; VStr "r2" := ["A"] ]}
                {[ "A" := User (VStr "Alice") (VStr "r2") ]}
                {[ "A" := {[ VStr "A"; VStr "r2" ]} ]}).
  repeat split; compute_done.
Qed.

(** C2: the claim asks that a join to another room first removes the
    connection from the member set of its previous room and tells the
    remaining members with [user-left].  On the source, A (in "r1" with
    B) joining "r2" emits only [users-in-room] and [user-joined], and
    "r1" keeps A in its member set. *)
Theorem join_room_switch_without_leave :
  ∃ st',
    run init two_in_r1 = Some st_two_in_r1 ∧
    users st_two_in_r1 !! "A" = Some (User (VStr "Alice") (VStr "r1")) ∧
    dispatch st_two_in_r1 "A" (JoinRoom (join_payload "r2" "Alice")) =
      Returns st' [ Emission {["A"]} (UsersInRoom []);
                    Emission ∅ (UserJoined "A" (VStr "Alice")) ] ∧
    rooms st' !! VStr "r1" = Some ["A"; "B"] ∧
    to_room st' "A" (VStr "r1") = {["B"]}.
Proof.
  exists (State {[ VStr "r1" := ["A"; "B"]; VStr "r2" := ["A"] ]}
                {[ "A" := User (VStr "Alice") (VStr "r2");
                   "B" := User (VStr "Bob") (VStr "r1") ]}
                {[ "A" := {[ VStr "A"; VStr "r2" ]};
                   "B" := {[ VStr "B"; VStr "r1" ]} ]}).
  repeat split; compute_done.
Qed.

(** ** Room self-cleanup *)

Lemma disconnect_rooms st id u st' out :
  live st id → users st !! id = Some u →
  dispatch st id Disconnect = Returns st' out →
  rooms st' = rooms_remove id (roomId u) (rooms st).
Proof.
  intros [rs Hrs] Hu. unfold dispatch, disconnect. rewrite Hrs. simpl.
  rewrite Hu. case_match; [|done]. by intros [= <- _].
Qed.

(** From a reachable state the close of a connection returns: the entries
    of [users] went through the log line of the join that made them. *)
Lemma dispatch_disconnect_returns st id :
  reachable st → ∃ st' out, dispatch st id Disconnect = Returns st' out.
Proof.
  intros Hr. unfold dispatch, disconnect.
  destruct (sockets st !! id); simpl; [|eauto].
  destruct (users st !! id) as [u|] eqn:Hu; [|eauto].
  pose proof (entries_logged _ (reachable_consistent _ Hr) _ _ Hu) as Hlog.
  simpl in Hlog. rewrite Hlog. eauto.
Qed.

Lemma dispatch_join_returns st id data :
  live st id → nullish data = false →
  forallb printable [field data "username"; field data "roomId"] = true →
  ∃ st' out, dispatch st id (JoinRoom data) = Returns st' out.
Proof.
  intros [rs Hrs] Hd Hlog. unfold dispatch, join_room.
  rewrite Hrs, !prop_field by done. rewrite log_and_return_true by done. eauto.
Qed.

(** C3: the claim asks that a room whose members have all left or closed
    is removed from [rooms], and that a later join of its name starts a
    fresh room.  The source breaks it on the leave path: A joins "r1",
    switches to "r2" and closes; nobody is left, yet [rooms] still holds
    "r1" with the closed A in it, and B, joining "r1" afterwards, is put
    behind A and is sent A as a user in the room. *)
Theorem abandoned_room_keeps_closed_member :
  ∃ st st',
    run init [ ("A", Connection);
               ("A", JoinRoom (join_payload "r1" "Alice"));
               ("A", JoinRoom (join_payload "r2" "Alice"));
               ("A", Disconnect);
               ("B", Connection) ] = Some st ∧
    ¬ live st "A" ∧ status st = (1, 0) ∧
    rooms st !! VStr "r1" = Some ["A"] ∧
    dispatch st "B" (JoinRoom (join_payload "r1" "Bob")) =
      Returns st' [ Emission {["B"]} (UsersInRoom [("A", VUndefined)]);
                    Emission ∅ (UserJoined "B" (VStr "Bob")) ] ∧
    rooms st' !! VStr "r1" = Some ["A"; "B"].
Proof.
  exists (State {[ VStr "r1" := ["A"] ]} ∅ {[ "B" := {[ VStr "B" ]} ]}),
         (State {[ VStr "r1" := ["A"; "B"] ]}
                {[ "B" := User (VStr "Bob") (VStr "r1") ]}
                {[ "B" := {[ VStr "B"; VStr "r1" ]} ]}).
  repeat split; compute_done.
Qed.

(** X16: in every reachable state no entry of [rooms] has an empty member
    set; a close that takes the last identifier out of the member set of
    the room its entry records deletes that room's entry; and a join of
    a room that has no entry, with a payload that the log line can
    print, creates the entry with the joiner alone in it. *)
Theorem room_self_cleanup st :
  reachable st →
  (∀ r ms, rooms st !! r = Some ms → ms ≠ []) ∧
  (∀ id u ms,
     live st id → users st !! id = Some u →
     rooms st !! roomId u = Some ms → set_delete id ms = [] →
     ∃ st' out, dispatch st id Disconnect = Returns st' out ∧
                rooms st' !! roomId u = None) ∧
  (∀ id data room,
     live st id → prop data "roomId" = Some room → rooms st !! room = None →
     forallb printable [field data "username"; room] = true →
     ∃ st' out, dispatch st id (JoinRoom data) = Returns st' out ∧
                rooms st' !! room = Some [id]).
Proof.
  intros Hr. split; [|split].
  - apply rooms_nonempty. by apply reachable_consistent.
  - intros id u ms Hl Hu Hms Hempty.
    destruct (dispatch_disconnect_returns st id Hr) as (st' & out & Hd).
    exists st', out. split; [done|].
    rewrite (disconnect_rooms _ _ _ _ _ Hl Hu Hd), rooms_remove_lookup.
    rewrite decide_True, Hms by done. simpl. by rewrite decide_True.
  - intros id data room [rs Hrs] Hroom Hnone Hlog.
    assert (nullish data = false) as Hd by by destruct data.
    unfold dispatch, join_room. rewrite Hrs, Hroom, (prop_field _ "username") by done.
    rewrite log_and_return_true by done.
    eexists _, _. split; [done|]. simpl.
    rewrite join_room_rooms_lookup, decide_True, Hnone by done.
    done.
Qed.

Lemma room_self_cleanup_witness :
  (∀ r ms, rooms st_b_in_r1 !! r = Some ms → ms ≠ []) ∧
  (∃ st' out, dispatch st_b_in_r1 "B" Disconnect = Returns st' out ∧
              rooms st' !! VStr "r1" = None) ∧
  (∃ st' out, dispatch st_b_in_r1 "A" (JoinRoom (join_payload "r2" "Alice"))
                = Returns st' out ∧
              rooms st' !! VStr "r2" = Some ["A"]).
Proof.
  destruct (room_self_cleanup st_b_in_r1 reachable_b_in_r1) as (H1 & H2 & H3).
  split; [exact H1|]. split.
  - apply (H2 "B" (User (VStr "Bob") (VStr "r1")) ["B"]); compute_done.
  - apply (H3 "A" (join_payload "r2" "Alice") (VStr "r2")); compute_done.
Defined.

(** ** Directory entries and the status counters *)

(** C4 as the claim states it fails: a connection that is live but has not
    sent [join-room] has no entry in [users]. *)
Lemma live_without_entry :
  ¬ (∀ st id, reachable st → (is_Some (users st !! id) ↔ live st id)).
Proof.
  intros H.
  destruct (H st_b_in_r1 "A" reachable_b_in_r1) as [_ Hl].
  assert (users st_b_in_r1 !! "A" = None) as Hnone by compute_done.
  destruct Hl as [u Hu]; [compute_done|]. congruence.
Qed.

(** C4, amended: an identifier present in [users] belongs to a live
    socket, and the health check reports the sizes of [rooms] and
    [users]. *)
Theorem entries_live_and_status st id :
  reachable st →
  (is_Some (users st !! id) → live st id) ∧
  status st = (size (rooms st), size (users st)).
Proof.
  intros Hr. split; [|done]. intros [u Hu].
  eapply users_live; [|done]. by apply reachable_consistent.
Qed.

Lemma entries_live_and_status_witness :
  (is_Some (users st_two_in_r1 !! "A") → live st_two_in_r1 "A") ∧
  status st_two_in_r1 = (size (rooms st_two_in_r1), size (users st_two_in_r1)).
Proof. apply entries_live_and_status, reachable_two_in_r1. Defined.

(** ** Point-to-point relays *)

Lemma relay_returns st id data :
  live st id → nullish data = false →
  let t := field data "targetId" in
  let rc := to_room st id t in
  dispatch st id (Offer data) =
    log_and_return [t] st
      [ Emission rc (OfferEv id (username_of (users st !! id))
                             (field data "offer")) ] ∧
  dispatch st id (Answer data) =
    log_and_return [t] st
      [ Emission rc (AnswerEv id (username_of (users st !! id))
                              (field data "answer")) ] ∧
  dispatch st id (IceCandidate data) =
    Returns st [ Emission rc (IceCandidateEv id (field data "candidate")) ].
Proof.
  intros [rs Hrs] Hd. unfold dispatch, offer, answer, ice_candidate.
  by rewrite Hrs, !prop_field.
Qed.

(** C5 as the claim states it fails: [socket.to(targetId)] addresses the
    transport room of that name.  With A and B in room "r1", an offer
    from A whose [targetId] is "r1" names no connection, yet it is
    delivered to B. *)
Lemma offer_to_room_name_delivered :
  ¬ (∀ st id data t,
       reachable st → live st id → prop data "targetId" = Some t →
       (¬ ∃ x, t = VStr x ∧ live st x) →
       ∀ st' out, dispatch st id (Offer data) = Returns st' out →
       ∀ e, e ∈ out → recipients e = ∅).
Proof.
  intros H.
  specialize (H st_two_in_r1 "A"
                (DObject {[ "targetId" := VStr "r1"; "offer" := VRef 1 ]})
                (VStr "r1") reachable_two_in_r1).
  assert (recipients (Emission {["B"]} (OfferEv "A" (VStr "Alice") (VRef 1))) = ∅)
    as Hrc.
  { eapply H.
    - compute_done.
    - compute_done.
    - assert (sockets st_two_in_r1 !! "r1" = None) as Hnone by compute_done.
      intros (x & [= <-] & [rs Hrs]). congruence.
    - compute_done.
    - apply list_elem_of_here. }
  simpl in Hrc. by apply non_empty_singleton_L in Hrc.
Qed.

(** C5, amended: an offer, answer or ice-candidate whose payload is not
    [undefined] or [null] changes nothing and is emitted once, to the
    transport rooms that [targetId] names, without the sender: the room
    of that name, or each element when [targetId] is an array.  It
    reaches the live connections other than the sender whose id is one
    of these names or whose entry records a room of one of these names;
    every other live connection when [targetId] is an empty array.  That
    is the target alone when [targetId] is the id of another live
    connection and no entry records a room of that name, and nobody when
    a name is given and no other live connection has that id or room.
    Offer and answer carry [fromId] and the sender's [username] from its
    current entry ([undefined] without one) and then write a log line,
    which raises when [targetId] cannot be converted to a string;
    ice-candidate carries [fromId] and the candidate and writes no log
    line. *)
Theorem relay_to_target_room st id data :
  reachable st → live st id → nullish data = false →
  let t := field data "targetId" in
  let rc := to_room st id t in
  (dispatch st id (Offer data) =
     log_and_return [t] st
       [ Emission rc (OfferEv id (username_of (users st !! id))
                              (field data "offer")) ] ∧
   dispatch st id (Answer data) =
     log_and_return [t] st
       [ Emission rc (AnswerEv id (username_of (users st !! id))
                               (field data "answer")) ] ∧
   dispatch st id (IceCandidate data) =
     Returns st [ Emission rc (IceCandidateEv id (field data "candidate")) ]) ∧
  (∀ x, x ∈ rc ↔
        x ≠ id ∧ live st x ∧
        (room_list t = [] ∨
         ∃ r, r ∈ room_list t ∧
              (r = VStr x ∨
               ∃ u, users st !! x = Some u ∧ r ∈ room_list (roomId u)))) ∧
  (∀ x, t = VStr x → x ≠ id → live st x →
        (∀ y u, users st !! y = Some u → t ∉ room_list (roomId u)) →
        rc = {[x]}) ∧
  (room_list t ≠ [] →
   (∀ x r, x ≠ id → live st x → r ∈ room_list t →
           r ≠ VStr x ∧ ∀ u, users st !! x = Some u → r ∉ room_list (roomId u)) →
   rc = ∅).
Proof.
  intros Hr Hl Hd t rc. pose proof (reachable_consistent _ Hr) as Hc.
  assert (∀ x, x ∈ rc ↔
               x ≠ id ∧ live st x ∧
               (room_list t = [] ∨
                ∃ r, r ∈ room_list t ∧
                     (r = VStr x ∨
                      ∃ u, users st !! x = Some u ∧ r ∈ room_list (roomId u))))
    as Hrc.
  { intros x. by apply elem_of_to_room_consistent. }
  split; [by apply relay_returns|]. split; [done|]. split.
  - intros x Ht Hx Hlx Hnone. apply set_eq. intros y.
    rewrite Hrc, elem_of_singleton. rewrite Ht in *. simpl. split.
    + intros (_ & _ & [?|(r & ->%list_elem_of_singleton & Hy)]); [done|].
      destruct Hy as [[= ->]|(u & Hu & Hroom)]; [done|].
      by destruct (Hnone _ _ Hu).
    + intros ->. split; [done|]. split; [done|]. right.
      exists (VStr x). split; [apply list_elem_of_here|by left].
  - intros Hne Hnone. apply set_eq. intros y. rewrite Hrc. split; [|set_solver].
    intros (Hy & Hly & [?|(r & Hin & Hroom)]); [done|].
    destruct (Hnone _ _ Hy Hly Hin) as [H1 H2].
    destruct Hroom as [?|(u & Hu & ?)]; [done|]. by destruct (H2 _ Hu).
Qed.

Lemma relay_to_target_room_witness :
  dispatch st_two_in_r1 "A"
    (Offer (DObject {[ "targetId" := VStr "B"; "offer" := VRef 1 ]})) =
  Returns st_two_in_r1
    [ Emission (to_room st_two_in_r1 "A" (VStr "B"))
               (OfferEv "A" (VStr "Alice") (VRef 1)) ] ∧
  ∀ x, x ∈ to_room st_two_in_r1 "A" (VStr "B") ↔
       x ≠ "A" ∧ live st_two_in_r1 x ∧
       (room_list (VStr "B") = [] ∨
        ∃ r, r ∈ room_list (VStr "B") ∧
             (r = VStr x ∨
              ∃ u, users st_two_in_r1 !! x = Some u ∧
                   r ∈ room_list (roomId u))).
Proof.
  pose (d := DObject {[ "targetId" := VStr "B"; "offer" := VRef 1 ]}).
  assert (live st_two_in_r1 "A") as Hl by compute_done.
  destruct (relay_to_target_room st_two_in_r1 "A" d reachable_two_in_r1 Hl eq_refl)
    as ((Ho & _ & _) & Hrc & _ & _).
  split; [exact Ho|exact Hrc].
Defined.

(** An offer addressed to an empty array reaches every other socket, and
    one addressed to an object with an own [toString] raises after it
    has been emitted. *)
Example offer_to_odd_targets :
  dispatch st_two_in_r1 "A"
    (Offer (DObject {[ "targetId" := VArr 1 []; "offer" := VRef 2 ]})) =
    Returns st_two_in_r1
      [ Emission {["B"]} (OfferEv "A" (VStr "Alice") (VRef 2)) ] ∧
  dispatch st_b_in_r1 "A"
    (Offer (DObject {[ "targetId" := VArr 1 []; "offer" := VRef 2 ]})) =
    Returns st_b_in_r1 [ Emission {["B"]} (OfferEv "A" VUndefined (VRef 2)) ] ∧
  dispatch st_two_in_r1 "A"
    (Offer (DObject {[ "targetId" := VOwnToString 1; "offer" := VRef 2 ]})) =
    Throws st_two_in_r1
      [ Emission ∅ (OfferEv "A" (VStr "Alice") (VRef 2)) ].
Proof. repeat split; compute_done. Qed.

(** C10: the three relays do not require the sender to have joined: from
    a live connection with no entry in [users], the event is still
    emitted and a live target receives it; offer and answer then carry
    [undefined] as the sender's name. *)
Theorem relay_from_unjoined_sender st id data x :
  reachable st → live st id → users st !! id = None →
  nullish data = false → field data "targetId" = VStr x →
  live st x → x ≠ id →
  ∃ rc, x ∈ rc ∧
    dispatch st id (Offer data) =
      Returns st [ Emission rc (OfferEv id VUndefined (field data "offer")) ] ∧
    dispatch st id (Answer data) =
      Returns st [ Emission rc (AnswerEv id VUndefined (field data "answer")) ] ∧
    dispatch st id (IceCandidate data) =
      Returns st [ Emission rc (IceCandidateEv id (field data "candidate")) ].
Proof.
  intros Hr Hl Hu Hd Ht Hlx Hx. exists (to_room st id (VStr x)). split.
  - apply elem_of_to_room_consistent; [by apply reachable_consistent|].
    split; [done|]. split; [done|]. right.
    exists (VStr x). split; [apply list_elem_of_here|by left].
  - destruct (relay_returns st id data Hl Hd) as (Ho & Ha & Hi).
    rewrite Ht, Hu in *. by rewrite Ho, Ha, Hi.
Qed.

Lemma relay_from_unjoined_sender_witness :
  ∃ rc, "B" ∈ rc ∧
    dispatch st_b_in_r1 "A"
      (Offer (DObject {[ "targetId" := VStr "B"; "offer" := VRef 1 ]})) =
    Returns st_b_in_r1 [ Emission rc (OfferEv "A" VUndefined (VRef 1)) ].
Proof.
  destruct (relay_from_unjoined_sender st_b_in_r1 "A"
              (DObject {[ "targetId" := VStr "B"; "offer" := VRef 1 ]}) "B")
    as (rc & Hin & Ho & _).
  - apply reachable_b_in_r1.
  - compute_done.
  - compute_done.
  - reflexivity.
  - reflexivity.
  - compute_done.
  - discriminate.
  - exists rc. split; [exact Hin|exact Ho].
Defined.

(** ** Chat messages *)

(** C6: a message from a connection with no entry in [users] returns at
    once, with no emission and the state unchanged, whatever its payload;
    from a connection with an entry it changes nothing and is emitted
    once, to the transport room the entry records without the sender,
    carrying the sender's id, the [username] of its entry, the text of
    the payload and the router's clock reading.  Every other connection
    whose entry records that room is among the recipients, the sender is
    not. *)
Theorem message_relay st id data now :
  reachable st → live st id →
  (users st !! id = None → dispatch st id (Message data now) = Returns st []) ∧
  (∀ u, users st !! id = Some u → nullish data = false →
     dispatch st id (Message data now) =
       Returns st [ Emission (to_room st id (roomId u))
                             (MessageEv id (username u) (field data "message") now) ] ∧
     (id ∉ to_room st id (roomId u)) ∧
     (∀ x u', x ≠ id → users st !! x = Some u' → roomId u' = roomId u →
              x ∈ to_room st id (roomId u))).
Proof.
  intros Hr [rs Hrs]. unfold dispatch, message. rewrite Hrs. split.
  - by intros ->.
  - intros u -> Hd. rewrite prop_field by done. split; [done|].
    split; [apply sender_not_in_to_room|].
    intros x u' Hx Hu' <-. apply joined_in_to_room; [|done..].
    by apply reachable_consistent.
Qed.

Lemma message_relay_witness :
  dispatch st_b_in_r1 "A" (Message DUndefined 1700000000000) =
    Returns st_b_in_r1 [] ∧
  dispatch st_two_in_r1 "A"
      (Message (DObject {[ "message" := VStr "hi" ]}) 1700000000000) =
    Returns st_two_in_r1
      [ Emission (to_room st_two_in_r1 "A" (VStr "r1"))
                 (MessageEv "A" (VStr "Alice") (VStr "hi") 1700000000000) ] ∧
  ("A" ∉ to_room st_two_in_r1 "A" (VStr "r1")) ∧
  "B" ∈ to_room st_two_in_r1 "A" (VStr "r1").
Proof.
  split.
  - apply message_relay; [apply reachable_b_in_r1|compute_done|compute_done].
  - assert (live st_two_in_r1 "A") as Hl by compute_done.
    destruct (message_relay st_two_in_r1 "A"
                (DObject {[ "message" := VStr "hi" ]}) 1700000000000
                reachable_two_in_r1 Hl) as [_ H].
    destruct (H (User (VStr "Alice") (VStr "r1"))) as (Hm & Hself & Hothers);
      [compute_done|reflexivity|].
    split; [exact Hm|]. split; [exact Hself|].
    apply (Hothers "B" (User (VStr "Bob") (VStr "r1")));
      [discriminate|compute_done|reflexivity].
Defined.

(** ** Notifications of a join *)

(** C7: a join with a payload that is not [undefined] or [null] emits
    [users-in-room] to the joiner and [user-joined], with the joiner's id
    and name, to the transport room joined without the joiner.  The list
    sent to the joiner is taken after the join: it holds the other ids of
    the room's member set, each with the [username] of its entry, never
    the joiner; every other connection whose entry records the room is
    listed with its name and receives [user-joined], and the joiner does
    not receive it.  Both events are emitted before the log line, which
    raises when the name or the room cannot be converted to a string. *)
Theorem join_room_notifications st id data :
  reachable st → live st id → nullish data = false →
  let room := field data "roomId" in
  let name := field data "username" in
  ∃ st' others,
    dispatch st id (JoinRoom data) =
      log_and_return [name; room] st'
        [ Emission {[id]} (UsersInRoom others);
          Emission (to_room st' id room) (UserJoined id name) ] ∧
    users st' !! id = Some (User name room) ∧
    (id ∉ others.*1) ∧
    (∀ x, x ≠ id →
          (x ∈ others.*1 ↔ ∃ ms, rooms st' !! room = Some ms ∧ x ∈ ms)) ∧
    (∀ x v, (x, v) ∈ others → v = username_of (users st' !! x)) ∧
    (∀ x u, x ≠ id → users st' !! x = Some u → roomId u = room →
            (x, username u) ∈ others ∧ x ∈ to_room st' id room) ∧
    id ∉ to_room st' id room.
Proof.
  intros Hr [rs Hrs] Hd room name. pose proof (reachable_consistent _ Hr) as Hc.
  unfold dispatch, join_room. rewrite Hrs, !prop_field by done.
  fold room name. eexists _, _. split; [done|]. simpl.
  set (ms' := default [] (_ !! room)).
  assert (∀ x, x ∈ ((λ x, (x, username_of (<[id:=User name room]> (users st) !! x)))
                      <$> filter (λ x, x ≠ id) ms').*1 ↔ x ≠ id ∧ x ∈ ms') as Hfst.
  { intros x. rewrite <- list_fmap_compose, list_fmap_id.
    by rewrite list_elem_of_filter. }
  assert (∀ x, x ∈ ms' ↔
               ∃ ms, alter (set_add id) room
                       (match rooms st !! room with
                        | Some _ => rooms st
                        | None => <[room:=[]]> (rooms st)
                        end) !! room = Some ms ∧ x ∈ ms) as Hms.
  { intros x. unfold ms'. rewrite join_room_rooms_lookup, decide_True by done.
    simpl. naive_solver. }
  split; [by rewrite lookup_insert_eq|]. split; [rewrite Hfst; naive_solver|].
  split; [intros x Hx; rewrite Hfst, Hms; naive_solver|].
  split.
  { intros x v (y & [= -> ->] & _)%list_elem_of_fmap. done. }
  split; [|apply sender_not_in_to_room].
  intros x u Hx Hu Hroom. rewrite lookup_insert_ne in Hu by done. split.
  - apply list_elem_of_fmap. exists x. rewrite lookup_insert_ne, Hu by done.
    split; [done|]. apply list_elem_of_filter. split; [done|].
    unfold ms'. rewrite join_room_rooms_lookup, decide_True by done. simpl.
    apply elem_of_set_add. right.
    destruct (joined_listed _ Hc _ _ Hu) as (ms & Hlook & Hin).
    rewrite Hroom in Hlook. by rewrite Hlook.
  - pose proof (joined_in_to_room _ id x u Hc Hx Hu) as Hin.
    rewrite Hroom in Hin. apply elem_of_to_room in Hin as [_ Hin].
    apply elem_of_to_room. split; [done|]. simpl.
    by rewrite join_room_sockets_lookup, decide_False.
Qed.

Lemma join_room_notifications_witness :
  ∃ st' others,
    dispatch st_b_in_r1 "A" (JoinRoom (join_payload "r1" "Alice")) =
      Returns st' [ Emission {["A"]} (UsersInRoom others);
                    Emission (to_room st' "A" (VStr "r1"))
                             (UserJoined "A" (VStr "Alice")) ] ∧
    ("A" ∉ others.*1) ∧
    ("A" ∉ to_room st' "A" (VStr "r1")).
Proof.
  assert (live st_b_in_r1 "A") as Hl by compute_done.
  destruct (join_room_notifications st_b_in_r1 "A" (join_payload "r1" "Alice")
              reachable_b_in_r1 Hl eq_refl)
    as (st' & others & Hdis & _ & Hsnap & _ & _ & _ & Hself).
  exists st', others. split; [exact Hdis|]. split; [exact Hsnap|exact Hself].
Defined.

(** The same join, evaluated: B is listed for A, and B is told. *)
Example join_room_second_member :
  ∃ st',
    dispatch st_b_in_r1 "A" (JoinRoom (join_payload "r1" "Alice")) =
      Returns st' [ Emission {["A"]} (UsersInRoom [("B", VStr "Bob")]);
                    Emission {["B"]} (UserJoined "A" (VStr "Alice")) ].
Proof.
  exists (State {[ VStr "r1" := ["B"; "A"] ]}
                {[ "A" := User (VStr "Alice") (VStr "r1");
                   "B" := User (VStr "Bob") (VStr "r1") ]}
                {[ "A" := {[ VStr "A"; VStr "r1" ]};
                   "B" := {[ VStr "B"; VStr "r1" ]} ]}).
  compute_done.
Qed.

(** ** Transport close *)

Lemma state_eta st : State (rooms st) (users st) (sockets st) = st.
Proof. by destruct st. Qed.

(** The handler on a connection without an entry: nothing happens. *)
Lemma disconnect_without_entry st id :
  users st !! id = None → disconnect st id = Returns st [].
Proof.
  intros Hu. unfold disconnect. rewrite Hu, delete_id by done.
  by rewrite state_eta.
Qed.

(** C8: closing is idempotent.  After a close has been processed, the
    handler run once more for the same identifier emits nothing and
    leaves the state as it is; the close of a connection that has no
    entry emits nothing and leaves [rooms] and [users] unchanged; the
    first close of a connection with an entry removes the entry and
    emits [user-left] once, with the [username] read from the entry
    before its removal, to every other connection whose entry records
    the same room and not to the closing one. *)
Theorem disconnect_idempotent st id :
  reachable st →
  (∀ st1 out1, dispatch st id Disconnect = Returns st1 out1 →
     disconnect st1 id = Returns st1 [] ∧
     dispatch st1 id Disconnect = Returns st1 []) ∧
  (users st !! id = None →
     ∃ st', dispatch st id Disconnect = Returns st' [] ∧
            rooms st' = rooms st ∧ users st' = users st) ∧
  (∀ u, live st id → users st !! id = Some u →
     ∃ st' rc,
       dispatch st id Disconnect =
         Returns st' [ Emission rc (UserLeft id (username u)) ] ∧
       users st' !! id = None ∧
       (id ∉ rc) ∧
       (∀ x u', x ≠ id → users st !! x = Some u' → roomId u' = roomId u →
                x ∈ rc)).
Proof.
  intros Hr. pose proof (reachable_consistent _ Hr) as Hc.
  split; [|split].
  - intros st1 out1 Hd.
    assert (users st1 !! id = None ∧ sockets st1 !! id = None) as [Hu1 Hs1].
    { revert Hd. unfold dispatch, disconnect.
      destruct (sockets st !! id) as [rs|] eqn:Hs; simpl.
      - destruct (users st !! id); [case_match; [|done]|];
          intros [= <- _]; simpl; by rewrite !lookup_delete_eq.
      - intros [= <- _]. split; [|done].
        destruct (users st !! id) as [u|] eqn:Hu; [|done].
        destruct (users_live _ Hc _ _ Hu) as [? ?]. congruence. }
    split; [by apply disconnect_without_entry|].
    unfold dispatch. by rewrite Hs1.
  - intros Hu. unfold dispatch, disconnect.
    destruct (sockets st !! id); simpl; [|by eauto].
    rewrite Hu. eexists. split; [done|]. simpl. by rewrite delete_id.
  - intros u [rs Hrs] Hu. unfold dispatch, disconnect. rewrite Hrs. simpl.
    rewrite Hu. pose proof (entries_logged _ Hc _ _ Hu) as Hlog.
    simpl in Hlog. rewrite Hlog.
    eexists _, _. split; [done|]. simpl.
    split; [apply lookup_delete_eq|]. split; [apply sender_not_in_to_room|].
    intros x u' Hx Hu' Hroom. apply elem_of_to_room. split; [done|]. simpl.
    destruct (users_live _ Hc _ _ Hu') as [rs' Hrs'].
    exists rs'. rewrite lookup_delete_ne by done. split; [done|].
    apply addressed_subseteq. rewrite (socket_rooms _ Hc _ _ Hrs').
    unfold rooms_of. rewrite Hu', Hroom. set_solver.
Qed.

Lemma disconnect_idempotent_witness :
  ∃ st' rc,
    dispatch st_two_in_r1 "B" Disconnect =
      Returns st' [ Emission rc (UserLeft "B" (VStr "Bob")) ] ∧
    "A" ∈ rc ∧ ("B" ∉ rc) ∧
    disconnect st' "B" = Returns st' [] ∧
    dispatch st' "B" Disconnect = Returns st' [].
Proof.
  destruct (disconnect_idempotent st_two_in_r1 "B" reachable_two_in_r1)
    as (Hagain & _ & Hfirst).
  destruct (Hfirst (User (VStr "Bob") (VStr "r1")))
    as (st' & rc & Hd & _ & Hself & Hothers); [compute_done|compute_done|].
  exists st', rc. split; [exact Hd|].
  split; [apply (Hothers "A" (User (VStr "Alice") (VStr "r1")));
            [discriminate|compute_done|reflexivity]|].
  split; [exact Hself|]. exact (Hagain _ _ Hd).
Defined.

(** ** Payloads with missing fields, and missing payloads *)

(** C9 as the claim states it fails: an event sent with no payload makes
    the handler read a property of [undefined], which raises. *)
Lemma join_room_without_payload_raises :
  ¬ (∀ st id ev, reachable st →
       ∃ st' out, dispatch st id ev = Returns st' out).
Proof.
  intros H.
  destruct (H st_b_in_r1 "A" (JoinRoom DUndefined) reachable_b_in_r1)
    as (st' & out & Hd).
  assert (dispatch st_b_in_r1 "A" (JoinRoom DUndefined) = Throws st_b_in_r1 [])
    as Hthrows by compute_done.
  congruence.
Qed.

(** A join whose payload has no fields is not a no-op either: the
    connection joins the room keyed [undefined]. *)
Example join_room_without_fields :
  ∃ st' out,
    dispatch st_b_in_r1 "A" (JoinRoom (DObject ∅)) = Returns st' out ∧
    rooms st' !! VUndefined = Some ["A"] ∧
    users st' !! "A" = Some (User VUndefined VUndefined).
Proof.
  exists (State {[ VStr "r1" := ["B"]; VUndefined := ["A"] ]}
                {[ "A" := User VUndefined VUndefined;
                   "B" := User (VStr "Bob") (VStr "r1") ]}
                {[ "A" := {[ VStr "A"; VUndefined ]};
                   "B" := {[ VStr "B"; VStr "r1" ]} ]}).
  eexists. split; [vm_compute; reflexivity|]. split; compute_done.
Qed.

(** A join whose [username] cannot be converted to a string raises at the
    log line, after the registries have changed and both events have
    been emitted. *)
Example join_room_unprintable_name :
  ∃ st' out,
    dispatch st_b_in_r1 "A"
      (JoinRoom (DObject {[ "roomId" := VStr "r1";
                            "username" := VOwnToString 1 ]}))
      = Throws st' out ∧
    users st' !! "A" = Some (User (VOwnToString 1) (VStr "r1")) ∧
    rooms st' !! VStr "r1" = Some ["B"; "A"] ∧
    recipients <$> out = [ {["A"]}; {["B"]} ].
Proof.
  exists (State {[ VStr "r1" := ["B"; "A"] ]}
                {[ "A" := User (VOwnToString 1) (VStr "r1");
                   "B" := User (VStr "Bob") (VStr "r1") ]}
                {[ "A" := {[ VStr "A"; VStr "r1" ]};
                   "B" := {[ VStr "B"; VStr "r1" ]} ]}).
  eexists. split; [vm_compute; reflexivity|]. repeat split; compute_done.
Qed.

(** C9, amended: from a reachable state, an event whose payload is not
    [undefined] or [null] and whose logged fields convert to strings
    (and every connection or close) is processed without raising, a
    field that is absent from an object payload reading as [undefined],
    and the state it leaves satisfies the registry invariant.  A handler
    raises in two cases only.  An event of a live connection whose
    payload is [undefined] or [null] raises at the first property read,
    with nothing changed and nothing emitted, except a message from a
    connection without an entry.  A join-room, offer or answer of a live
    connection with a logged field that cannot be converted to a string
    raises at its log line, which comes after its emissions. *)
Theorem dispatch_completes st id ev :
  reachable st →
  ((∀ d, payload_of ev = Some d → nullish d = false) →
   forallb printable (logged ev) = true →
     ∃ st' out, dispatch st id ev = Returns st' out ∧ consistent st') ∧
  (∀ st1 out1, dispatch st id ev = Throws st1 out1 →
     ∃ d, payload_of ev = Some d ∧
       ((nullish d = true ∧ st1 = st ∧ out1 = []) ∨
        (nullish d = false ∧ forallb printable (logged ev) = false ∧
         out1 ≠ []))) ∧
  (∀ d, live st id → payload_of ev = Some d → nullish d = true →
     (∀ now, ev = Message d now → is_Some (users st !! id)) →
     dispatch st id ev = Throws st []) ∧
  (∀ d, live st id → payload_of ev = Some d → nullish d = false →
     forallb printable (logged ev) = false →
     ∃ st1 out1, dispatch st id ev = Throws st1 out1 ∧ out1 ≠ []) ∧
  (∀ fields name, fields !! name = None →
     prop (DObject fields) name = Some VUndefined).
Proof.
  intros Hr. split; [|split; [|split; [|split]]].
  - intros Hd Hlog.
    assert (∃ st' out, dispatch st id ev = Returns st' out) as (st' & out & H).
    { destruct ev as [|d|d|d|d|d now|]; unfold logged in Hlog;
        try (specialize (Hd d eq_refl)).
      - unfold dispatch. destruct (sockets st !! id); eauto.
      - unfold dispatch, join_room. destruct (sockets st !! id); [|eauto].
        rewrite !prop_field, log_and_return_true by done. eauto.
      - unfold dispatch, offer. destruct (sockets st !! id); [|eauto].
        rewrite !prop_field, log_and_return_true by done. eauto.
      - unfold dispatch, answer. destruct (sockets st !! id); [|eauto].
        rewrite !prop_field, log_and_return_true by done. eauto.
      - unfold dispatch, ice_candidate. destruct (sockets st !! id); [|eauto].
        rewrite !prop_field by done. eauto.
      - unfold dispatch, message. destruct (sockets st !! id); [|eauto].
        destruct (users st !! id); [|eauto].
        rewrite !prop_field by done. eauto.
      - by apply dispatch_disconnect_returns. }
    exists st', out. split; [done|].
    eapply dispatch_consistent; [|done]. by apply reachable_consistent.
  - intros st1 out1 Hthrow. destruct ev as [|d|d|d|d|d now|].
    + revert Hthrow. unfold dispatch. by destruct (sockets st !! id).
    + exists d. split; [done|]. revert Hthrow. unfold dispatch, join_room.
      destruct (sockets st !! id); [|done]. destruct (nullish d) eqn:Hn.
      * destruct d; try done; simpl; intros [= <- <-]; by left.
      * rewrite !prop_field by done.
        intros [[_ [=]]|[Hlog [= -> ->]]]%log_and_return_inv. by right.
    + exists d. split; [done|]. revert Hthrow. unfold dispatch, offer.
      destruct (sockets st !! id); [|done]. destruct (nullish d) eqn:Hn.
      * destruct d; try done; simpl; intros [= <- <-]; by left.
      * rewrite !prop_field by done.
        intros [[_ [=]]|[Hlog [= -> ->]]]%log_and_return_inv. by right.
    + exists d. split; [done|]. revert Hthrow. unfold dispatch, answer.
      destruct (sockets st !! id); [|done]. destruct (nullish d) eqn:Hn.
      * destruct d; try done; simpl; intros [= <- <-]; by left.
      * rewrite !prop_field by done.
        intros [[_ [=]]|[Hlog [= -> ->]]]%log_and_return_inv. by right.
    + exists d. split; [done|]. revert Hthrow. unfold dispatch, ice_candidate.
      destruct (sockets st !! id); [|done].
      destruct d; try done; simpl; intros [= <- <-]; by left.
    + exists d. split; [done|]. revert Hthrow. unfold dispatch, message.
      destruct (sockets st !! id); [|done]. destruct (users st !! id); [|done].
      destruct d; try done; simpl; intros [= <- <-]; by left.
    + destruct (dispatch_disconnect_returns st id Hr) as (st' & out & Hd).
      congruence.
  - intros d [rs Hrs] Hp Hn Hmsg. unfold dispatch. rewrite Hrs.
    destruct ev as [|d'|d'|d'|d'|d' now|]; simplify_eq/=;
      try (by destruct d).
    destruct (Hmsg now eq_refl) as [u Hu]. unfold message. rewrite Hu.
    by destruct d.
  - intros d [rs Hrs] Hp Hn Hlog. unfold dispatch. rewrite Hrs.
    destruct ev as [|d'|d'|d'|d'|d' now|]; simplify_eq/=;
      unfold join_room, offer, answer, log_and_return;
      rewrite !prop_field by done; simpl; rewrite Hlog; eauto.
  - intros fields name Hf. simpl. by rewrite Hf.
Qed.

Lemma dispatch_completes_witness :
  ∃ st' out,
    dispatch st_b_in_r1 "A" (Offer (DObject ∅)) = Returns st' out ∧
    consistent st'.
Proof.
  apply (dispatch_completes st_b_in_r1 "A" (Offer (DObject ∅))
           reachable_b_in_r1).
  - intros d [= <-]. reflexivity.
  - reflexivity.
Defined.

(** * Further properties of the handlers *)

(** ** What the registries record *)

(** X1: in every reachable state the room recorded by an entry of
    [users] has an entry in [rooms] whose member set holds that
    connection. *)
Theorem entry_room_lists_connection st x u :
  reachable st → users st !! x = Some u → member st (roomId u) x.
Proof. intros Hr Hu. by eapply joined_listed; [apply reachable_consistent|]. Qed.

Lemma entry_room_lists_connection_witness : member st_two_in_r1 (VStr "r1") "B".
Proof.
  apply (entry_room_lists_connection st_two_in_r1 "B"
           (User (VStr "Bob") (VStr "r1")) reachable_two_in_r1).
  compute_done.
Defined.

(** X2: in every reachable state a live socket sits in the transport room
    named by its id and in the rooms that the [roomId] of its entry names
    (that room, or each element when it is an array), and in no other:
    the loop of lines 43-47 leaves it in the rooms of one join at most. *)
Theorem socket_in_own_and_entry_room st x rs r :
  reachable st → sockets st !! x = Some rs →
  r ∈ rs ↔
  r = VStr x ∨ ∃ u, users st !! x = Some u ∧ r ∈ room_list (roomId u).
Proof.
  intros Hr Hrs. apply elem_of_socket_rooms; [|done].
  by apply reachable_consistent.
Qed.

Lemma socket_in_own_and_entry_room_witness :
  VStr "r2" ∈ ({[ VStr "A"; VStr "r1" ]} : gset value) ↔
  VStr "r2" = VStr "A" ∨
  ∃ u, users st_two_in_r1 !! "A" = Some u ∧ VStr "r2" ∈ room_list (roomId u).
Proof.
  apply (socket_in_own_and_entry_room st_two_in_r1 "A" _ (VStr "r2")
           reachable_two_in_r1).
  compute_done.
Defined.

(** ** How join and close change the member sets *)


Lemma join_room_member_iff st id data st' out r x :
  live st id → dispatch st id (JoinRoom data) = Returns st' out →
  member st' r x ↔ member st r x ∨ (r = field data "roomId" ∧ x = id).
Proof.
  intros [rs Hrs]. unfold dispatch, join_room, field, member. rewrite Hrs.
  destruct (prop data "roomId") as [room|]; [|done].
  destruct (prop data "username") as [name|]; [|done].
  intros (_ & <- & _)%log_and_return_Returns. simpl. rewrite join_room_rooms_lookup.
  case_decide as Hroom.
  - subst r. destruct (rooms st !! room) as [ms|]; simpl.
    + split.
      * intros (ms' & [= <-] & [->|Hin]%elem_of_set_add); eauto.
      * intros [(ms' & [= <-] & Hin)|[_ ->]];
          (eexists; split; [done|]; apply elem_of_set_add; auto).
    + split.
      * intros (ms' & [= <-] & [->|Hin]%elem_of_set_add); [auto|].
        by apply elem_of_nil in Hin.
      * intros [(ms' & [=] & _)|[_ ->]].
        eexists; split; [done|]. apply elem_of_set_add; auto.
  - split; [auto|]. intros [?|[? _]]; [done|congruence].
Qed.

(** X3: a join by a live connection that returns adds the joiner to the
    member set of the room joined and changes no other membership: it
    takes nobody, the joiner included, out of any member set. *)
Theorem join_room_members st id data st' out r x :
  live st id → dispatch st id (JoinRoom data) = Returns st' out →
  member st' r x ↔ member st r x ∨ (r = field data "roomId" ∧ x = id).
Proof. apply join_room_member_iff. Qed.

Lemma join_room_members_witness :
  ∃ st' out,
    dispatch st_two_in_r1 "A" (JoinRoom (join_payload "r2" "Alice"))
      = Returns st' out ∧
    (member st' (VStr "r1") "A" ↔
     member st_two_in_r1 (VStr "r1") "A" ∨ (VStr "r1" = VStr "r2" ∧ "A" = "A")).
Proof.
  assert (live st_two_in_r1 "A") as Hl by compute_done.
  destruct (dispatch_join_returns st_two_in_r1 "A" (join_payload "r2" "Alice")
              Hl eq_refl eq_refl) as (st' & out & Hd).
  exists st', out. split; [exact Hd|].
  exact (join_room_members st_two_in_r1 "A" (join_payload "r2" "Alice")
           st' out (VStr "r1") "A" Hl Hd).
Defined.

Lemma disconnect_member_iff st id u st' out r x :
  live st id → users st !! id = Some u →
  dispatch st id Disconnect = Returns st' out →
  member st' r x ↔ member st r x ∧ ¬ (r = roomId u ∧ x = id).
Proof.
  intros Hl Hu Hd. unfold member.
  rewrite (disconnect_rooms _ _ _ _ _ Hl Hu Hd), rooms_remove_lookup.
  case_decide as Hroom.
  - subst r. destruct (rooms st !! roomId u) as [ms|]; simpl.
    + case_decide as Hempty.
      * split; [by intros (? & [=] & _)|].
        intros [(ms' & [= <-] & Hin) Hne].
        assert (x ∈ set_delete id ms) as Hin'.
        { apply elem_of_set_delete. split; [|done]. intros ->. by apply Hne. }
        rewrite Hempty in Hin'. by apply elem_of_nil in Hin'.
      * split.
        -- intros (ms' & [= <-] & [Hx Hin]%elem_of_set_delete).
           split; [eauto|]. by intros [_ ->].
        -- intros [(ms' & [= <-] & Hin) Hne]. eexists; split; [done|].
           apply elem_of_set_delete. split; [|done]. intros ->. by apply Hne.
    + split; [by intros (? & [=] & _)|by intros [(? & [=] & _) _]].
  - split; [|by intros [? _]]. intros Hm. split; [done|]. by intros [? _].
Qed.

(** X4: the close of a live connection with an entry takes the connection
    out of the member set of the room its entry records and changes no
    other membership: what [rooms] holds for the connection under another
    room stays. *)
Theorem disconnect_members st id u st' out r x :
  live st id → users st !! id = Some u →
  dispatch st id Disconnect = Returns st' out →
  member st' r x ↔ member st r x ∧ ¬ (r = roomId u ∧ x = id).
Proof. apply disconnect_member_iff. Qed.

Lemma disconnect_members_witness :
  ∃ st' out,
    dispatch st_two_in_r1 "B" Disconnect = Returns st' out ∧
    (member st' (VStr "r1") "A" ↔
     member st_two_in_r1 (VStr "r1") "A" ∧
     ¬ (VStr "r1" = VStr "r1" ∧ "A" = "B")).
Proof.
  destruct (dispatch_disconnect_returns st_two_in_r1 "B" reachable_two_in_r1) as (st' & out & Hd).
  exists st', out. split; [exact Hd|].
  apply (disconnect_members st_two_in_r1 "B" (User (VStr "Bob") (VStr "r1"))
           st' out (VStr "r1") "A"); [compute_done|compute_done|exact Hd].
Defined.

Lemma dispatch_frame st id ev st' out x :
  dispatch st id ev = Returns st' out → x ≠ id →
  users st' !! x = users st !! x ∧ sockets st' !! x = sockets st !! x.
Proof.
  intros Hd Hx. revert Hd. unfold dispatch.
  destruct (sockets st !! id) as [rs|] eqn:Hrs.
  - destruct ev as [|d|d|d|d|d now|].
    + by intros [= <- _].
    + unfold join_room.
      destruct (prop d "roomId") as [room|]; [|done].
      destruct (prop d "username") as [name|]; [|done].
      intros (_ & <- & _)%log_and_return_Returns. simpl. rewrite lookup_insert_ne by done.
      by rewrite join_room_sockets_lookup, decide_False.
    + unfold offer, log_and_return. by repeat case_match; intros [= <- _].
    + unfold answer, log_and_return. by repeat case_match; intros [= <- _].
    + unfold ice_candidate. by repeat case_match; intros [= <- _].
    + unfold message. by repeat case_match; intros [= <- _].
    + unfold disconnect. simpl.
      destruct (users st !! id); [case_match; [|done]|];
        intros [= <- _]; simpl; by rewrite !lookup_delete_ne.
  - destruct ev; intros [= <- _]; try done. simpl.
    by rewrite lookup_insert_ne.
Qed.

(** X5: an event of one connection never changes the entry or the
    transport rooms of another connection. *)
Theorem dispatch_other_connections_untouched st id ev st' out x :
  dispatch st id ev = Returns st' out → x ≠ id →
  users st' !! x = users st !! x ∧ sockets st' !! x = sockets st !! x.
Proof. apply dispatch_frame. Qed.

Lemma dispatch_other_connections_untouched_witness :
  ∃ st' out,
    dispatch st_two_in_r1 "A" Disconnect = Returns st' out ∧
    users st' !! "B" = users st_two_in_r1 !! "B" ∧
    sockets st' !! "B" = sockets st_two_in_r1 !! "B".
Proof.
  destruct (dispatch_disconnect_returns st_two_in_r1 "A" reachable_two_in_r1) as (st' & out & Hd).
  exists st', out. split; [exact Hd|].
  apply (dispatch_other_connections_untouched st_two_in_r1 "A" Disconnect
           st' out "B" Hd). discriminate.
Defined.

(** ** The snapshot lists nobody twice *)

Lemma set_add_NoDup x s : NoDup s → NoDup (set_add x s).
Proof.
  intros Hs. unfold set_add. case_decide as Hx; [done|].
  apply NoDup_app. split; [done|]. split; [|apply NoDup_singleton].
  intros y Hy ->%list_elem_of_singleton. done.
Qed.

Lemma dispatch_rooms_NoDup st id ev st' out :
  (∀ r ms, rooms st !! r = Some ms → NoDup ms) →
  dispatch st id ev = Returns st' out →
  ∀ r ms, rooms st' !! r = Some ms → NoDup ms.
Proof.
  intros Hnd. unfold dispatch.
  destruct (sockets st !! id) as [rs|]; [|by destruct ev; intros [= <- _]].
  destruct ev as [|d|d|d|d|d now|].
  - by intros [= <- _].
  - unfold join_room.
    destruct (prop d "roomId") as [room|]; [|done].
    destruct (prop d "username") as [name|]; [|done].
    intros (_ & <- & _)%log_and_return_Returns r ms. simpl. rewrite join_room_rooms_lookup.
    case_decide; [|apply Hnd]. intros [= <-]. apply set_add_NoDup.
    destruct (rooms st !! room) as [ms0|] eqn:Hm; simpl; [by eapply Hnd|].
    apply NoDup_nil_2.
  - unfold offer, log_and_return. by repeat case_match; intros [= <- _].
  - unfold answer, log_and_return. by repeat case_match; intros [= <- _].
  - unfold ice_candidate. by repeat case_match; intros [= <- _].
  - unfold message. by repeat case_match; intros [= <- _].
  - unfold disconnect. simpl.
    destruct (users st !! id) as [u|]; [case_match; [|done]|];
      intros [= <- _]; simpl; [|done].
    intros r ms. rewrite rooms_remove_lookup. case_decide; [|apply Hnd].
    destruct (rooms st !! roomId u) as [ms0|] eqn:Hm; simpl; [|done].
    case_decide; [done|]. intros [= <-]. apply NoDup_filter. by eapply Hnd.
Qed.

Lemma reachable_rooms_NoDup st :
  reachable st → ∀ r ms, rooms st !! r = Some ms → NoDup ms.
Proof.
  induction 1 as [|st id ev st' out _ IH Hd].
  - intros r ms. unfold init. simpl. by rewrite lookup_empty.
  - by eapply dispatch_rooms_NoDup.
Qed.

(** X6: in every reachable state a member set holds no identifier twice,
    and the [users-in-room] list that a join sends to the joiner names no
    connection twice. *)
Theorem snapshot_without_duplicates st id data st' rc others rest :
  reachable st →
  dispatch st id (JoinRoom data) =
    Returns st' (Emission rc (UsersInRoom others) :: rest) →
  NoDup others.*1 ∧ ∀ r ms, rooms st' !! r = Some ms → NoDup ms.
Proof.
  intros Hr Hd.
  assert (∀ r ms, rooms st' !! r = Some ms → NoDup ms) as Hnd.
  { apply reachable_rooms_NoDup. by eapply reachable_step. }
  split; [|done]. revert Hd Hnd. unfold dispatch, join_room.
  destruct (sockets st !! id); [|done].
  destruct (prop data "roomId") as [room|]; [|done].
  destruct (prop data "username") as [name|]; [|done].
  intros (_ & <- & [= _ <- _])%log_and_return_Returns. simpl. intros Hnd.
  rewrite <- list_fmap_compose, list_fmap_id. apply NoDup_filter.
  destruct (alter _ _ _ !! room) as [ms|] eqn:Hm; simpl;
    [by eapply Hnd|apply NoDup_nil_2].
Qed.

Lemma snapshot_without_duplicates_witness :
  ∃ st' rc others rest,
    dispatch st_b_in_r1 "A" (JoinRoom (join_payload "r1" "Alice")) =
      Returns st' (Emission rc (UsersInRoom others) :: rest) ∧
    NoDup others.*1.
Proof.
  assert (∃ st' rc others rest,
            dispatch st_b_in_r1 "A" (JoinRoom (join_payload "r1" "Alice")) =
              Returns st' (Emission rc (UsersInRoom others) :: rest))
    as (st' & rc & others & rest & Hd).
  { do 4 eexists. vm_compute. reflexivity. }
  exists st', rc, others, rest. split; [exact Hd|].
  apply (snapshot_without_duplicates st_b_in_r1 "A" _ st' rc others rest
           reachable_b_in_r1 Hd).
Defined.

(** ** Joining again, and joining then closing *)

(** X7: joining the room the entry already records, under the name it
    already records, changes no registry and no transport room; the
    joiner still receives [users-in-room] and the room is told
    [user-joined] once more. *)
Theorem rejoin_same_room st id u data :
  reachable st → users st !! id = Some u → nullish data = false →
  field data "roomId" = roomId u → field data "username" = username u →
  ∃ others,
    dispatch st id (JoinRoom data) =
      Returns st [ Emission {[id]} (UsersInRoom others);
                   Emission (to_room st id (roomId u))
                            (UserJoined id (username u)) ].
Proof.
  intros Hr Hu Hd Hroom Hname. pose proof (reachable_consistent _ Hr) as Hc.
  destruct (users_live _ Hc _ _ Hu) as [rs Hrs].
  destruct (joined_listed _ Hc _ _ Hu) as (ms & Hms & Hin).
  unfold dispatch, join_room. rewrite Hrs, !prop_field by done.
  rewrite Hroom, Hname, Hms.
  assert (alter (set_add id) (roomId u) (rooms st) = rooms st) as ->.
  { apply alter_id. intros ms' Hms'. unfold set_add.
    rewrite decide_True; [done|]. congruence. }
  assert (<[id:=User (username u) (roomId u)]> (users st) = users st) as ->.
  { apply insert_id. rewrite Hu. by destruct u. }
  assert (socket_join id (roomId u) (leave_previous id (sockets st))
          = sockets st) as ->.
  { apply map_eq. intros x. rewrite join_room_sockets_lookup.
    case_decide as Hx; [subst x|done]. rewrite Hrs. simpl. f_equal.
    rewrite (socket_rooms _ Hc _ _ Hrs). unfold rooms_of. rewrite Hu.
    apply set_eq. intros r.
    rewrite !elem_of_union, elem_of_filter, !elem_of_union, !elem_of_singleton.
    naive_solver. }
  rewrite state_eta, log_and_return_true; [eauto|].
  apply (entries_logged _ Hc _ _ Hu).
Qed.

Lemma rejoin_same_room_witness :
  ∃ others,
    dispatch st_two_in_r1 "A" (JoinRoom (join_payload "r1" "Alice")) =
      Returns st_two_in_r1
        [ Emission {["A"]} (UsersInRoom others);
          Emission (to_room st_two_in_r1 "A" (VStr "r1"))
                   (UserJoined "A" (VStr "Alice")) ].
Proof.
  apply (rejoin_same_room st_two_in_r1 "A" (User (VStr "Alice") (VStr "r1"))
           (join_payload "r1" "Alice") reachable_two_in_r1);
    [compute_done|reflexivity|reflexivity|reflexivity].
Defined.

Lemma set_delete_absent x s : x ∉ s → set_delete x s = s.
Proof.
  unfold set_delete. induction s as [|y s IH]; [done|].
  intros Hx. apply not_elem_of_cons in Hx as [Hxy Hxs].
  rewrite filter_cons_True by done. by rewrite IH.
Qed.

Lemma set_delete_add_absent x s : x ∉ s → set_delete x (set_add x s) = s.
Proof.
  intros Hx. unfold set_add. rewrite decide_False by done.
  unfold set_delete. rewrite filter_app, filter_cons_False by naive_solver.
  rewrite filter_nil, app_nil_r. by apply set_delete_absent.
Qed.

(** X8: from a reachable state, a join by a live connection that has no
    entry and is in no member set of the room, with a name and a room
    that the log line can convert to strings, followed by the close of
    that connection, leaves [rooms] and [users] as they were before the
    join. *)
Theorem join_then_close_restores st id data :
  reachable st → live st id → users st !! id = None →
  nullish data = false → ¬ member st (field data "roomId") id →
  forallb printable [field data "username"; field data "roomId"] = true →
  ∃ st1 out1 st2 out2,
    dispatch st id (JoinRoom data) = Returns st1 out1 ∧
    dispatch st1 id Disconnect = Returns st2 out2 ∧
    rooms st2 = rooms st ∧ users st2 = users st.
Proof.
  intros Hr [rs Hrs] Hu Hd Hnot Hlog.
  pose proof (reachable_consistent _ Hr) as Hc.
  set (room := field data "roomId") in *.
  unfold dispatch at 1. unfold join_room. rewrite Hrs, !prop_field by done.
  fold room. rewrite log_and_return_true by done.
  eexists _, _, _, _. split; [done|].
  unfold dispatch, disconnect. simpl.
  rewrite join_room_sockets_lookup, decide_True, Hrs by done. simpl.
  rewrite lookup_insert_eq. simpl. simpl in Hlog. rewrite Hlog.
  split; [done|]. simpl.
  split; [|by apply delete_insert_id].
  apply map_eq. intros r. rewrite rooms_remove_lookup.
  case_decide as Heq.
  - subst r. rewrite join_room_rooms_lookup, decide_True by done.
    destruct (rooms st !! room) as [ms|] eqn:Hms; simpl.
    + assert (id ∉ ms) as Hid by (intros Hin; apply Hnot; by exists ms).
      rewrite set_delete_add_absent by done.
      rewrite decide_False; [done|]. by eapply rooms_nonempty.
    + rewrite set_delete_add_absent by apply not_elem_of_nil.
      by rewrite decide_True.
  - by rewrite join_room_rooms_lookup, decide_False.
Qed.

Lemma join_then_close_restores_witness :
  ∃ st1 out1 st2 out2,
    dispatch st_b_in_r1 "A" (JoinRoom (join_payload "r1" "Alice"))
      = Returns st1 out1 ∧
    dispatch st1 "A" Disconnect = Returns st2 out2 ∧
    rooms st2 = rooms st_b_in_r1 ∧ users st2 = users st_b_in_r1.
Proof.
  apply (join_then_close_restores st_b_in_r1 "A" (join_payload "r1" "Alice")
           reachable_b_in_r1);
    [compute_done|compute_done|reflexivity| |reflexivity].
  intros (ms & Hms & Hin).
  assert (rooms st_b_in_r1 !! VStr "r1" = Some ["B"]) as Hr1 by compute_done.
  change (field (join_payload "r1" "Alice") "roomId") with (VStr "r1") in Hms.
  rewrite Hr1 in Hms. injection Hms as <-.
  apply list_elem_of_singleton in Hin. discriminate.
Defined.

(** ** The counters of the health check *)

Lemma map_size_alter `{Countable K} {A} (f : A → A) (k : K) (m : gmap K A) :
  size (alter f k m) = size m.
Proof. by rewrite <- !(size_dom (D:=gset K)), dom_alter_L. Qed.

(** X9: a join by a live connection that returns raises [activeRooms] by
    one when the room had no entry in [rooms] and [activeUsers] by one
    when the joiner had no entry in [users]; otherwise the counter keeps
    its value.  No join lowers a counter. *)
Theorem join_room_counters st id data st' out :
  live st id → dispatch st id (JoinRoom data) = Returns st' out →
  status st' =
    (size (rooms st) +
       match rooms st !! field data "roomId" with Some _ => 0 | None => 1 end,
     size (users st) +
       match users st !! id with Some _ => 0 | None => 1 end).
Proof.
  intros [rs Hrs]. unfold dispatch, join_room, field, status. rewrite Hrs.
  destruct (prop data "roomId") as [room|]; [|done].
  destruct (prop data "username") as [name|]; [|done].
  intros (_ & <- & _)%log_and_return_Returns. simpl. rewrite map_size_alter, map_size_insert. f_equal.
  - destruct (rooms st !! room) eqn:Hroom; simpl; [lia|].
    rewrite map_size_insert, Hroom. simpl. lia.
  - destruct (users st !! id); simpl; lia.
Qed.

Lemma join_room_counters_witness :
  ∃ st' out,
    dispatch st_b_in_r1 "A" (JoinRoom (join_payload "r2" "Alice"))
      = Returns st' out ∧
    status st' = (2, 2).
Proof.
  assert (live st_b_in_r1 "A") as Hl by compute_done.
  destruct (dispatch_join_returns st_b_in_r1 "A" (join_payload "r2" "Alice")
              Hl eq_refl eq_refl) as (st' & out & Hd).
  exists st', out. split; [exact Hd|].
  rewrite (join_room_counters st_b_in_r1 "A" (join_payload "r2" "Alice")
             st' out Hl Hd).
  compute_done.
Defined.

(** X10: the close of a live connection with an entry lowers
    [activeUsers] by one, and lowers [activeRooms] by one exactly when
    the room its entry records has an entry in [rooms] that the close
    leaves without member. *)
Theorem disconnect_counters st id u st' out :
  live st id → users st !! id = Some u →
  dispatch st id Disconnect = Returns st' out →
  status st' =
    (size (rooms st) -
       match rooms st !! roomId u with
       | Some ms => if decide (set_delete id ms = []) then 1 else 0
       | None => 0
       end,
     size (users st) - 1).
Proof.
  intros [rs Hrs] Hu. unfold dispatch, disconnect, status. rewrite Hrs. simpl.
  rewrite Hu. case_match; [|done].
  intros [= <- _]. simpl. rewrite map_size_delete, Hu. f_equal.
  - unfold rooms_remove. destruct (rooms st !! roomId u) as [ms|] eqn:Hms;
      [|lia].
    destruct (set_delete id ms) as [|y l] eqn:Hdel; simpl.
    + rewrite map_size_delete, Hms. simpl. lia.
    + rewrite map_size_insert, Hms. simpl. lia.
  - simpl. lia.
Qed.

Lemma disconnect_counters_witness :
  ∃ st' out,
    dispatch st_b_in_r1 "B" Disconnect = Returns st' out ∧
    status st' = (0, 0).
Proof.
  destruct (dispatch_disconnect_returns st_b_in_r1 "B" reachable_b_in_r1) as (st' & out & Hd).
  exists st', out. split; [exact Hd|].
  rewrite (disconnect_counters st_b_in_r1 "B" (User (VStr "Bob") (VStr "r1"))
             st' out); [compute_done|compute_done|compute_done|exact Hd].
Defined.

(** X11: in every reachable state [activeUsers] is at most the number of
    live sockets. *)
Theorem users_bounded_by_sockets st :
  reachable st → size (users st) ≤ size (sockets st).
Proof.
  intros Hr. rewrite <- !(size_dom (D:=gset string)). apply subseteq_size.
  intros x [u Hu]%elem_of_dom. apply elem_of_dom.
  by eapply users_live; [apply reachable_consistent|].
Qed.

Lemma users_bounded_by_sockets_witness :
  size (users st_b_in_r1) ≤ size (sockets st_b_in_r1).
Proof. exact (users_bounded_by_sockets st_b_in_r1 reachable_b_in_r1). Defined.

Lemma prop_numbered_room k :
  prop (numbered_room k) "roomId" = Some (VNum (Z.of_nat k)) ∧
  prop (numbered_room k) "username" = Some VUndefined.
Proof.
  unfold numbered_room. simpl.
  by rewrite lookup_singleton_eq, lookup_singleton_ne.
Qed.

(** One connection that joins the rooms numbered 0 to [n] in turn. *)
Lemma rooms_pile_up n :
  ∃ st, reachable st ∧
    users st = {[ "A" := User VUndefined (VNum (Z.of_nat n)) ]} ∧
    live st "A" ∧
    size (rooms st) = S n ∧
    rooms st !! VNum (Z.of_nat n) = Some ["A"] ∧
    ∀ k, n < k → rooms st !! VNum (Z.of_nat k) = None.
Proof.
  induction n as [|n (st & Hr & Hu & [rs Hrs] & Hsize & Hlast & Hfree)].
  - exists (State {[ VNum 0 := ["A"] ]} {[ "A" := User VUndefined (VNum 0) ]}
                  {[ "A" := {[ VStr "A"; VNum 0 ]} ]}).
    split.
    { apply (run_reachable [ ("A", Connection); ("A", JoinRoom (numbered_room 0)) ]
               init); [apply reachable_init|compute_done]. }
    split; [done|]. split; [compute_done|]. split; [compute_done|].
    split; [compute_done|]. intros k Hk. simpl.
    apply lookup_singleton_ne. intros [= Heq]. lia.
  - destruct (prop_numbered_room (S n)) as [Hroom Hname].
    assert (rooms st !! VNum (Z.of_nat (S n)) = None) as Hnone
      by (apply Hfree; lia).
    eexists. split.
    { eapply (reachable_step st "A" (JoinRoom (numbered_room (S n)))); [done|].
      unfold dispatch, join_room. by rewrite Hrs, Hroom, Hname. }
    simpl. rewrite Hnone.
    split; [by rewrite Hu, insert_singleton_eq|].
    split.
    { unfold live. simpl.
      by rewrite join_room_sockets_lookup, decide_True, Hrs. }
    split; [by rewrite map_size_alter, map_size_insert, Hnone, Hsize|].
    split.
    { by rewrite lookup_alter_eq, lookup_insert_eq. }
    intros k Hk. rewrite lookup_alter_ne, lookup_insert_ne.
    + apply Hfree. lia.
    + intros [= Heq]. lia.
    + intros [= Heq]. lia.
Qed.

(** X12: [activeRooms] is not bounded by the connections: for every [n]
    the server reaches a state with no entry in [users] and [n] entries
    in [rooms].  One connection joins [n + 1] rooms in turn and closes;
    only the last room is removed. *)
Theorem rooms_outlive_connections n :
  ∃ st, reachable st ∧ status st = (n, 0).
Proof.
  destruct (rooms_pile_up n) as (st & Hr & Hu & [rs Hrs] & Hsize & Hlast & _).
  eexists. split.
  { eapply (reachable_step st "A" Disconnect); [done|].
    unfold dispatch, disconnect. rewrite Hrs. simpl.
    rewrite Hu, lookup_singleton_eq. reflexivity. }
  unfold status. simpl. unfold rooms_remove. rewrite Hlast. simpl.
  rewrite map_size_delete, Hlast, Hsize, ?Hu, delete_singleton_eq. simpl.
  by rewrite map_size_empty.
Qed.

(** ** Memberships that nobody removes *)

Lemma dispatch_member_other st y ev st' out r x :
  dispatch st y ev = Returns st' out → x ≠ y →
  member st' r x ↔ member st r x.
Proof.
  intros Hd Hx. destruct (sockets st !! y) as [rs|] eqn:Hrs.
  - assert (live st y) as Hl by by exists rs.
    destruct ev as [|d|d|d|d|d now|].
    + revert Hd. unfold dispatch. rewrite Hrs. by intros [= <- _].
    + rewrite (join_room_member_iff _ _ _ _ _ r x Hl Hd). naive_solver.
    + revert Hd. unfold dispatch, offer, log_and_return. rewrite Hrs.
      by repeat case_match; intros [= <- _].
    + revert Hd. unfold dispatch, answer, log_and_return. rewrite Hrs.
      by repeat case_match; intros [= <- _].
    + revert Hd. unfold dispatch, ice_candidate. rewrite Hrs.
      by repeat case_match; intros [= <- _].
    + revert Hd. unfold dispatch, message. rewrite Hrs.
      by repeat case_match; intros [= <- _].
    + destruct (users st !! y) as [u|] eqn:Hu.
      * rewrite (disconnect_member_iff _ _ _ _ _ r x Hl Hu Hd). naive_solver.
      * revert Hd. unfold dispatch, disconnect. rewrite Hrs. simpl.
        rewrite Hu. by intros [= <- _].
  - revert Hd. unfold dispatch. rewrite Hrs.
    by destruct ev; intros [= <- _].
Qed.

(** X13: through every run of events of other connections, a connection
    is in a member set at the end exactly when it was at the start:
    nobody else adds it or removes it, and a room whose member set holds
    it keeps its entry in [rooms].  With X4 this makes permanent what a
    connection leaves behind in a room it has switched away from: after
    its close only a new connection under the same identifier could
    remove it. *)
Theorem stale_member_persists tr st st' r x :
  Forall (λ e, e.1 ≠ x) tr → run st tr = Some st' →
  (member st' r x ↔ member st r x) ∧
  (member st r x → is_Some (rooms st' !! r)).
Proof.
  intros Hall Hrun.
  assert (member st' r x ↔ member st r x) as Hiff.
  { revert st Hrun.
    induction Hall as [|[y ev] tr Hy _ IH]; intros st Hrun; simpl in Hrun.
    - by simplify_eq.
    - destruct (dispatch st y ev) as [st1 out|] eqn:Hd; [|done].
      rewrite (IH st1 Hrun). apply (dispatch_member_other _ _ _ _ _ r x Hd).
      simpl in Hy. congruence. }
  split; [done|]. intros (ms & Hms & _)%Hiff. by exists ms.
Qed.

(** A closes after switching from "r1" to "r2"; B and C come and go. *)
Lemma stale_member_persists_witness :
  ∃ st st',
    run init [ ("A", Connection);
               ("A", JoinRoom (join_payload "r1" "Alice"));
               ("A", JoinRoom (join_payload "r2" "Alice"));
               ("A", Disconnect) ] = Some st ∧
    users st !! "A" = None ∧
    run st [ ("B", Connection);
             ("B", JoinRoom (join_payload "r1" "Bob"));
             ("B", Disconnect) ] = Some st' ∧
    member st' (VStr "r1") "A" ∧ is_Some (rooms st' !! VStr "r1").
Proof.
  exists (State {[ VStr "r1" := ["A"] ]} ∅ ∅),
         (State {[ VStr "r1" := ["A"] ]} ∅ ∅).
  split; [compute_done|]. split; [compute_done|].
  assert (run (State {[ VStr "r1" := ["A"] ]} ∅ ∅)
              [ ("B", Connection);
                ("B", JoinRoom (join_payload "r1" "Bob"));
                ("B", Disconnect) ]
          = Some (State {[ VStr "r1" := ["A"] ]} ∅ ∅)) as Hrun by compute_done.
  split; [exact Hrun|].
  assert (Forall (λ e : string * event, e.1 ≠ "A")
            [ ("B", Connection);
              ("B", JoinRoom (join_payload "r1" "Bob"));
              ("B", Disconnect) ]) as Hall
    by (repeat constructor; simpl; discriminate).
  assert (member (State {[ VStr "r1" := ["A"] ]} ∅ ∅) (VStr "r1") "A") as Hm.
  { exists ["A"]. split; [compute_done|apply list_elem_of_here]. }
  destruct (stale_member_persists _ _ _ (VStr "r1") "A" Hall Hrun)
    as [Hiff Hentry].
  split; [by apply Hiff|by apply Hentry].
Defined.

(** ** A message after a join *)

(** X14: after a join has returned, a message of the joiner carries the
    name given in that join and is delivered to the live connections,
    other than the joiner, that the [roomId] of the join addresses:
    those whose id is the room's name or whose entry records a room of
    that name, where an array stands for each of its elements and an
    empty array for everybody.  Nobody else receives it: the members of
    a room the joiner was in before, which the join does not name, do
    not. *)
Theorem message_after_join st id data st1 out1 text now x :
  reachable st → live st id → nullish data = false → nullish text = false →
  dispatch st id (JoinRoom data) = Returns st1 out1 →
  ∃ rc,
    dispatch st1 id (Message text now) =
      Returns st1 [ Emission rc (MessageEv id (field data "username")
                                           (field text "message") now) ] ∧
    (x ∈ rc ↔
     x ≠ id ∧ live st x ∧
     (room_list (field data "roomId") = [] ∨
      ∃ r, r ∈ room_list (field data "roomId") ∧
           (r = VStr x ∨
            ∃ u, users st !! x = Some u ∧ r ∈ room_list (roomId u)))).
Proof.
  intros Hr Hl Hd Ht Hjoin.
  assert (consistent st1) as Hc1.
  { apply reachable_consistent. by eapply reachable_step. }
  assert (users st1 !! id =
          Some (User (field data "username") (field data "roomId"))) as Hu1.
  { revert Hjoin. destruct Hl as [rs Hrs]. unfold dispatch, join_room.
    rewrite Hrs, !prop_field by done.
    intros (_ & <- & _)%log_and_return_Returns. simpl.
    apply lookup_insert_eq. }
  destruct (users_live _ Hc1 _ _ Hu1) as [rs1 Hrs1].
  eexists. split.
  { unfold dispatch, message. by rewrite Hrs1, Hu1, prop_field. }
  simpl. rewrite elem_of_to_room_consistent by done. unfold live.
  destruct (decide (x = id)) as [->|Hx]; [naive_solver|].
  destruct (dispatch_frame _ _ _ _ _ x Hjoin Hx) as [Hux Hsx].
  by rewrite Hux, Hsx.
Qed.

Lemma message_after_join_witness :
  ∃ st1 out1 rc,
    dispatch st_two_in_r1 "A" (JoinRoom (join_payload "r2" "Alice"))
      = Returns st1 out1 ∧
    dispatch st1 "A" (Message (DObject {[ "message" := VStr "hi" ]}) 1) =
      Returns st1 [ Emission rc (MessageEv "A" (VStr "Alice") (VStr "hi") 1) ] ∧
    "B" ∉ rc.
Proof.
  assert (live st_two_in_r1 "A") as Hl by compute_done.
  destruct (dispatch_join_returns st_two_in_r1 "A" (join_payload "r2" "Alice")
              Hl eq_refl eq_refl) as (st1 & out1 & Hjoin).
  destruct (message_after_join st_two_in_r1 "A" (join_payload "r2" "Alice")
              st1 out1 (DObject {[ "message" := VStr "hi" ]}) 1 "B"
              reachable_two_in_r1 Hl eq_refl eq_refl Hjoin)
    as (rc & Hmsg & Hrc).
  exists st1, out1, rc. split; [exact Hjoin|]. split; [exact Hmsg|].
  rewrite Hrc.
  change (room_list (field (join_payload "r2" "Alice") "roomId"))
    with [VStr "r2"].
  assert (users st_two_in_r1 !! "B" = Some (User (VStr "Bob") (VStr "r1")))
    as Hb by compute_done.
  intros (_ & _ & [Heq|(r & Hin & Hr)]); [discriminate Heq|].
  apply list_elem_of_singleton in Hin as ->.
  destruct Hr as [Heq|(u & Hu & Hroom)]; [discriminate Heq|].
  rewrite Hb in Hu. injection Hu as <-.
  apply list_elem_of_singleton in Hroom. discriminate Hroom.
Defined.

(** With A and B in "r1", A joins the array of "r1" and sends a message:
    the transport reads the array, and B receives the message. *)
Example message_after_array_join :
  ∃ st1 out1,
    dispatch st_two_in_r1 "A"
      (JoinRoom (DObject {[ "roomId" := VArr 1 [VStr "r1"];
                            "username" := VStr "Alice" ]}))
      = Returns st1 out1 ∧
    sockets st1 !! "A" = Some {[ VStr "A"; VStr "r1" ]} ∧
    dispatch st1 "A" (Message (DObject {[ "message" := VStr "hi" ]}) 1) =
      Returns st1 [ Emission {["B"]}
                      (MessageEv "A" (VStr "Alice") (VStr "hi") 1) ].
Proof.
  exists (State {[ VStr "r1" := ["A"; "B"]; VArr 1 [VStr "r1"] := ["A"] ]}
                {[ "A" := User (VStr "Alice") (VArr 1 [VStr "r1"]);
                   "B" := User (VStr "Bob") (VStr "r1") ]}
                {[ "A" := {[ VStr "A"; VStr "r1" ]};
                   "B" := {[ VStr "B"; VStr "r1" ]} ]}).
  eexists. split; [vm_compute; reflexivity|]. split; compute_done.
Qed.

(** X15: in every reachable state, when [activeUsers] is not zero
    [activeRooms] is not zero either. *)
Theorem active_users_imply_active_rooms st :
  reachable st → size (users st) ≠ 0 → size (rooms st) ≠ 0.
Proof.
  intros Hr [x [u Hu]]%map_size_ne_0_lookup.
  destruct (joined_listed _ (reachable_consistent _ Hr) _ _ Hu) as (ms & Hms & _).
  apply map_size_ne_0_lookup. by exists (roomId u), ms.
Qed.

Lemma active_users_imply_active_rooms_witness : size (rooms st_two_in_r1) ≠ 0.
Proof.
  apply (active_users_imply_active_rooms st_two_in_r1 reachable_two_in_r1).
  compute_done.
Defined.
